(** * The hash-chained ledger of [utils/blockchain.js]

    A shallow embedding of class [BlockchainUtils]: the block and ledger
    records, the hash engine, proof-of-work mining, chain verification,
    transaction admission, status lookup and snapshot export / import,
    followed by the properties of the ledger specification.

    Conventions.
    - The JavaScript numbers the ledger handles (block indices, millisecond
      timestamps, nonces, the difficulty) are integers far below 2^53, where
      double arithmetic is exact: they are modelled by [Z].
    - [Date.now()] is an input: every function that reads the clock takes the
      instants it reads, in reading order.
    - A method that mutates [this] takes the ledger and returns the ledger it
      leaves behind, also when it throws. *)

From Stdlib Require Import ZArith List String Ascii Bool Lia DecimalString Permutation.
Import ListNotations.

Local Open Scope string_scope.
Local Open Scope Z_scope.

#[local] Set Warnings "-register-all".

(** ** JavaScript values *)

Module JS.

(** The values found in a transaction object. [VNaN] is the number NaN;
    every other number is an integer. *)
Inductive Value : Type :=
| VUndefined
| VNull
| VBool (b : bool)
| VNum (n : Z)
| VNaN
| VStr (s : string)
| VArr (items : list Value)
| VObj (props : list (string * Value)).

(** A plain object: its own properties, in insertion order. *)
Definition Object : Type := list (string * Value).

(** [o.k] *)
Fixpoint get_prop (o : Object) (k : string) : Value :=
  match o with
  | [] => VUndefined
  | (k', v) :: o' => if String.eqb k' k then v else get_prop o' k
  end.

(** [o.k = v]: an existing property keeps its place, a new one goes last. *)
Fixpoint set_prop (o : Object) (k : string) (v : Value) : Object :=
  match o with
  | [] => [(k, v)]
  | (k', v') :: o' =>
      if String.eqb k' k then (k', v) :: o' else (k', v') :: set_prop o' k v
  end.

(** ToBoolean *)
Definition truthy (v : Value) : bool :=
  match v with
  | VUndefined | VNull | VNaN => false
  | VBool b => b
  | VNum n => negb (n =? 0)
  | VStr s => negb (String.eqb s "")
  | VArr _ | VObj _ => true
  end.

(** [a === b]. Primitives compare by value and NaN differs from itself.
    Arrays and objects compare by reference; the model keeps no
    references, and two compound values are taken to be distinct ones. *)
Definition strict_equals (a b : Value) : bool :=
  match a, b with
  | VUndefined, VUndefined => true
  | VNull, VNull => true
  | VBool x, VBool y => Bool.eqb x y
  | VNum x, VNum y => x =? y
  | VStr x, VStr y => String.eqb x y
  | _, _ => false
  end.

(** Number::toString on an integer. *)
Definition Number_toString (n : Z) : string :=
  NilZero.string_of_int (Z.to_int n).

Fixpoint join (sep : string) (parts : list string) : string :=
  match parts with
  | [] => ""
  | [p] => p
  | p :: rest => p ++ sep ++ join sep rest
  end.

(** ToString. An array joins its elements with commas, null and undefined
    elements giving the empty string; a plain object gives
    ["[object Object]"]. *)
Definition Object_prototype_toString : string := "[object Object]".

Fixpoint ToString (v : Value) : string :=
  match v with
  | VUndefined => "undefined"
  | VNull => "null"
  | VBool true => "true"
  | VBool false => "false"
  | VNum n => Number_toString n
  | VNaN => "NaN"
  | VStr s => s
  | VArr items =>
      join "," (map (fun x => match x with
                              | VUndefined | VNull => ""
                              | _ => ToString x
                              end) items)
  | VObj _ => Object_prototype_toString
  end.

(** ToPrimitive: arrays and plain objects become their string. *)
Definition ToPrimitive (v : Value) : Value :=
  match v with
  | VArr _ | VObj _ => VStr (ToString v)
  | _ => v
  end.

(** ToNumber on a primitive that is no string; [None] is NaN. *)
Definition ToNumber (v : Value) : option Z :=
  match v with
  | VNull => Some 0
  | VBool true => Some 1
  | VBool false => Some 0
  | VNum n => Some n
  | _ => None
  end.

(** [a + b]: concatenation as soon as one side is a string, else a sum. *)
Definition plus (a b : Value) : Value :=
  let pa := ToPrimitive a in
  let pb := ToPrimitive b in
  match pa, pb with
  | VStr _, _ | _, VStr _ => VStr (ToString pa ++ ToString pb)
  | _, _ =>
      match ToNumber pa, ToNumber pb with
      | Some x, Some y => VNum (x + y)
      | _, _ => VNaN
      end
  end.

(** *** JSON.stringify *)

Definition hex_digit (n : nat) : ascii :=
  match n with
  | 0 => "0" | 1 => "1" | 2 => "2" | 3 => "3" | 4 => "4" | 5 => "5"
  | 6 => "6" | 7 => "7" | 8 => "8" | 9 => "9" | 10 => "a" | 11 => "b"
  | 12 => "c" | 13 => "d" | 14 => "e" | _ => "f"
  end%char%nat.

(** One code unit inside a JSON string literal. *)
Definition quote_char (c : ascii) : string :=
  let n := nat_of_ascii c in
  if Nat.eqb n 34 then String "\" (String (ascii_of_nat 34) "")
  else if Nat.eqb n 92 then "\\"
  else if Nat.eqb n 8 then "\b"
  else if Nat.eqb n 9 then "\t"
  else if Nat.eqb n 10 then "\n"
  else if Nat.eqb n 12 then "\f"
  else if Nat.eqb n 13 then "\r"
  else if Nat.ltb n 32 then
    "\u00" ++ String (hex_digit (Nat.div n 16)) (String (hex_digit (Nat.modulo n 16)) "")
  else String c "".

Fixpoint quote_chars (s : string) : string :=
  match s with
  | EmptyString => ""
  | String c s' => quote_char c ++ quote_chars s'
  end.

Definition QuoteJSONString (s : string) : string :=
  String (ascii_of_nat 34) (quote_chars s ++ String (ascii_of_nat 34) "").

(** [JSON.stringify v]; [None] is the result [undefined]. Inside an array
    undefined prints as null; inside an object the property is skipped. *)
Fixpoint JSON_stringify (v : Value) : option string :=
  match v with
  | VUndefined => None
  | VNull | VNaN => Some "null"
  | VBool true => Some "true"
  | VBool false => Some "false"
  | VNum n => Some (Number_toString n)
  | VStr s => Some (QuoteJSONString s)
  | VArr items =>
      Some ("[" ++ join "," (map (fun x => match JSON_stringify x with
                                            | Some s => s
                                            | None => "null"
                                            end) items) ++ "]")
  | VObj props =>
      Some ("{" ++ join "," (flat_map (fun p =>
                               let '(k, x) := p in
                               match JSON_stringify x with
                               | Some s => [QuoteJSONString k ++ ":" ++ s]
                               | None => []
                               end) props) ++ "}")
  end.

(** [s.substring(a, b)]: both bounds are clamped to the string and swapped
    when out of order. *)
Definition String_substring (s : string) (a b : Z) : string :=
  let len := Z.of_nat (String.length s) in
  let a' := Z.min (Z.max a 0) len in
  let b' := Z.min (Z.max b 0) len in
  let lo := Z.min a' b' in
  let hi := Z.max a' b' in
  substring (Z.to_nat lo) (Z.to_nat (hi - lo)) s.

Fixpoint repeat_string (s : string) (n : nat) : string :=
  match n with
  | O => ""
  | S n' => s ++ repeat_string s n'
  end.

(** [s.repeat(count)]: a negative count is a RangeError ([None]). (The
    limit an engine puts on the length of a string is not modelled.) *)
Definition String_repeat (s : string) (count : Z) : option string :=
  if count <? 0 then None else Some (repeat_string s (Z.to_nat count)).

End JS.


(** ** The [crypto] module of the runtime *)

Module crypto.

(** A hash in progress: its algorithm and the data fed to it so far. *)
Record Hash : Type := mkHash { algorithm : string; fed : string }.

(** [crypto.createHash(algorithm)] *)
Definition createHash (alg : string) : Hash := mkHash alg "".

(** [hash.update(data)] feeds a string and returns the same hash object. *)
Definition update (h : Hash) (data : string) : Hash :=
  mkHash (algorithm h) (fed h ++ data).

(** [hash.toString(encoding)]. The class [Hash] defines [update], [digest]
    and [copy] and no [toString] of its own: the call resolves to
    [Object.prototype.toString], which takes no argument, reads neither the
    encoding nor the data fed to the hash, and answers the tag of a plain
    object. The digest would be [hash.digest(encoding)], which the ledger
    never calls. *)
Definition toString (h : Hash) (encoding : string) : string :=
  JS.Object_prototype_toString.

End crypto.

(** ** Data model *)

(** A ledger transaction is a plain object; the ledger reads and writes the
    properties [type], [signedBy], [data], [hash], [timestamp] and
    [blockNumber] and carries the others along. *)
Definition Transaction : Type := JS.Object.

Record Block : Type := mkBlock {
  index : Z;
  timestamp : Z;
  transactions : list Transaction;
  previousHash : string;
  hash : string;
  nonce : Z
}.

(** The fields of a [BlockchainUtils] instance. ([nodes] is created empty and
    never read or written again; it is left out.) *)
Record BlockchainUtils : Type := mkLedger {
  difficulty : Z;
  pendingTransactions : list Transaction;
  chain : list Block
}.

(** What the methods throw: [new Error('Transaction invalide')],
    [new Error('Format de blockchain invalide')], [new Error] of a corrupted
    imported chain, and the runtime's own [TypeError] (a property read on
    [undefined]) and [RangeError] (a negative repeat count). *)
Inductive Error : Type :=
| InvalidTransaction
| InvalidFormat
| CorruptedChain
| TypeError
| RangeError.

(** The end of a call: the ledger it leaves and the value returned or the
    error thrown. *)
Inductive Result (A : Type) : Type :=
| Ok (this : BlockchainUtils) (value : A)
| Throw (this : BlockchainUtils) (e : Error).

Arguments Ok {A} this value.
Arguments Throw {A} this e.

Definition ledger_of {A : Type} (r : Result A) : BlockchainUtils :=
  match r with
  | Ok this _ => this
  | Throw this _ => this
  end.

(** [a[i]] on an array: [None] is [undefined], also for a negative index. *)
Definition Array_get {A : Type} (a : list A) (i : Z) : option A :=
  if i <? 0 then None else nth_error a (Z.to_nat i).

(** ** Hash engine *)

(** [JSON.stringify(transactions)] on an array of transaction objects. *)
Definition stringify_transactions (txs : list Transaction) : string :=
  match JS.JSON_stringify (JS.VArr (map JS.VObj txs)) with
  | Some s => s
  | None => "undefined"
  end.

(** [calculateHash(index, timestamp, transactions, previousHash, nonce)].
    In [index + timestamp + JSON.stringify(..) + previousHash + nonce] the
    first [+] adds two numbers and the next three concatenate. *)
Definition calculateHash_data (index timestamp : Z) (transactions : list Transaction)
    (previousHash : string) (nonce : Z) : string :=
  JS.Number_toString (index + timestamp)
    ++ stringify_transactions transactions
    ++ previousHash
    ++ JS.Number_toString nonce.

Definition calculateHash (index timestamp : Z) (transactions : list Transaction)
    (previousHash : string) (nonce : Z) : string :=
  let data := calculateHash_data index timestamp transactions previousHash nonce in
  crypto.toString (crypto.update (crypto.createHash "sha256") data) "hex".

(** [generateTransactionHash(transaction)], reading the clock once. The
    operands of [+] are whatever the object holds; [update] accepts a string
    and throws a [TypeError] on any other primitive. *)
Definition generateTransactionHash_data (transaction : Transaction) (now : Z) : JS.Value :=
  let json := match JS.JSON_stringify (JS.get_prop transaction "data") with
              | Some s => JS.VStr s
              | None => JS.VUndefined
              end in
  JS.plus (JS.plus (JS.plus (JS.get_prop transaction "type")
                            (JS.get_prop transaction "signedBy"))
                   json)
          (JS.VNum now).

Definition generateTransactionHash (transaction : Transaction) (now : Z) : Error + string :=
  match generateTransactionHash_data transaction now with
  | JS.VStr data =>
      inr (crypto.toString (crypto.update (crypto.createHash "sha256") data) "hex")
  | _ => inl TypeError
  end.

(** ** Construction *)

(** [createGenesisBlock()]: the object literal reads the clock for
    [timestamp] and once more inside the [calculateHash] call, which leaves
    [nonce] to its default 0. *)
Definition createGenesisBlock (this : BlockchainUtils) (now1 now2 : Z) : BlockchainUtils :=
  let genesisBlock :=
    {| index := 0;
       timestamp := now1;
       transactions := [];
       previousHash := "0";
       hash := calculateHash 0 now2 [] "0" 0;
       nonce := 0 |} in
  mkLedger (difficulty this) (pendingTransactions this) (chain this ++ [genesisBlock]).

(** [new BlockchainUtils()] *)
Definition constructor (now1 now2 : Z) : BlockchainUtils :=
  createGenesisBlock (mkLedger 4 [] []) now1 now2.

(** [getLatestBlock()]: [this.chain[this.chain.length - 1]]. *)
Definition getLatestBlock (this : BlockchainUtils) : option Block :=
  Array_get (chain this) (Z.of_nat (List.length (chain this)) - 1).

(** ** Mining *)

(** The proof-of-work loop of [mineBlock]
    [do { newHash = calculateHash(.., nonce); nonce++; }
     while (newHash.substring(0, d) !== '0'.repeat(d))],
    run for at most [fuel] iterations, [hashOf nonce] being the
    [calculateHash] call, in which the nonce alone varies. [None]: the loop
    is still running after [fuel] iterations. Otherwise the [RangeError] of
    [repeat], or the hash and the counter the loop ends with. *)
Fixpoint proofOfWork (hashOf : Z -> string) (fuel : nat) (d nonce : Z)
    : option (Error + string * Z) :=
  match fuel with
  | O => None
  | S fuel' =>
      let newHash := hashOf nonce in
      let nonce := nonce + 1 in
      match JS.String_repeat "0" d with
      | None => Some (inl RangeError)
      | Some zeros =>
          if negb (String.eqb (JS.String_substring newHash 0 d) zeros)
          then proofOfWork hashOf fuel' d nonce
          else Some (inr (newHash, nonce))
      end
  end.

(** [mineBlock(transactions)], reading the clock once. [None]: the search
    did not end within [fuel] iterations. *)
Definition mineBlock (fuel : nat) (this : BlockchainUtils)
    (transactions : list Transaction) (now : Z) : option (Result Block) :=
  match getLatestBlock this with
  | None => Some (Throw this TypeError)
  | Some previousBlock =>
      let newIndex := index previousBlock + 1 in
      let newTimestamp := now in
      match proofOfWork (calculateHash newIndex newTimestamp transactions
                                       (hash previousBlock))
                        fuel (difficulty this) 0 with
      | None => None
      | Some (inl e) => Some (Throw this e)
      | Some (inr (newHash, nonce)) =>
          let newBlock :=
            {| index := newIndex;
               timestamp := newTimestamp;
               transactions := transactions;
               previousHash := hash previousBlock;
               hash := newHash;
               nonce := nonce |} in
          Some (Ok (mkLedger (difficulty this) (pendingTransactions this)
                             (chain this ++ [newBlock]))
                   newBlock)
      end
  end.

(** ** Submission *)

(** [verifySignature(transaction)] accepts every signature. *)
Definition verifySignature (transaction : Transaction) : bool := true.

Definition has_hash (h : JS.Value) (tx : Transaction) : bool :=
  JS.strict_equals (JS.get_prop tx "hash") h.

(** [transactionExists(hash)]: the sealed blocks first, then the pool. *)
Definition transactionExists (this : BlockchainUtils) (h : JS.Value) : bool :=
  if existsb (fun block => existsb (has_hash h) (transactions block)) (chain this)
  then true
  else existsb (has_hash h) (pendingTransactions this).

(** [isValidTransaction(transaction)] *)
Definition isValidTransaction (this : BlockchainUtils) (transaction : Transaction) : bool :=
  if negb (JS.truthy (JS.get_prop transaction "type"))
     || negb (JS.truthy (JS.get_prop transaction "signedBy"))
     || negb (JS.truthy (JS.get_prop transaction "data"))
  then false
  else if negb (verifySignature transaction) then false
  else if transactionExists this (JS.get_prop transaction "hash") then false
  else true.

(** [addTransaction(transaction)], reading the clock inside
    [generateTransactionHash] and again for [timestamp]. The object handed
    in is the one mutated, pushed and returned. *)
Definition addTransaction (this : BlockchainUtils) (transaction : Transaction)
    (now1 now2 : Z) : Result Transaction :=
  if negb (isValidTransaction this transaction) then Throw this InvalidTransaction
  else
    match generateTransactionHash transaction now1 with
    | inl e => Throw this e
    | inr h =>
        let transaction := JS.set_prop transaction "hash" (JS.VStr h) in
        let transaction := JS.set_prop transaction "timestamp" (JS.VNum now2) in
        let transaction := JS.set_prop transaction "blockNumber" JS.VNull in
        Ok (mkLedger (difficulty this) (pendingTransactions this ++ [transaction])
                     (chain this))
           transaction
    end.

(** ** Queries *)

(** The object [getTransactionStatus] returns. [None] in [blockNumber] and
    [blockHash] is [null]. *)
Record TransactionStatus : Type := mkStatus {
  status : string;
  blockNumber : option Z;
  confirmations : Z;
  statusTimestamp : JS.Value;
  blockHash : option string
}.

(** The [for (const block of this.chain)] loop of [getTransactionStatus]. *)
Fixpoint status_in_blocks (chainLength : Z) (transactionHash : JS.Value)
    (blocks : list Block) : option TransactionStatus :=
  match blocks with
  | [] => None
  | block :: rest =>
      match find (has_hash transactionHash) (transactions block) with
      | Some _ =>
          Some {| status := "confirmed";
                  blockNumber := Some (index block);
                  confirmations := chainLength - index block;
                  statusTimestamp := JS.VNum (timestamp block);
                  blockHash := Some (hash block) |}
      | None => status_in_blocks chainLength transactionHash rest
      end
  end.

(** [getTransactionStatus(transactionHash)]; [None] is [null]. *)
Definition getTransactionStatus (this : BlockchainUtils) (transactionHash : JS.Value)
    : option TransactionStatus :=
  match status_in_blocks (Z.of_nat (List.length (chain this))) transactionHash (chain this) with
  | Some s => Some s
  | None =>
      match find (has_hash transactionHash) (pendingTransactions this) with
      | Some pendingTx =>
          Some {| status := "pending";
                  blockNumber := None;
                  confirmations := 0;
                  statusTimestamp := JS.get_prop pendingTx "timestamp";
                  blockHash := None |}
      | None => None
      end
  end.

(** ** Chain verification *)

(** One turn of the loop of [isChainValid] on [chain[i - 1]], [chain[i]]. *)
Definition block_checks (previousBlock currentBlock : Block) : bool :=
  if negb (String.eqb (previousHash currentBlock) (hash previousBlock)) then false
  else
    let calculatedHash :=
      calculateHash (index currentBlock) (timestamp currentBlock)
                    (transactions currentBlock) (previousHash currentBlock)
                    (nonce currentBlock) in
    if negb (String.eqb (hash currentBlock) calculatedHash) then false
    else true.

(** The loop [for (i = 1; i < chain.length; i++)] from a given
    [chain[i - 1]] onwards. *)
Fixpoint checks_from (check : Block -> Block -> bool) (previousBlock : Block)
    (rest : list Block) : bool :=
  match rest with
  | [] => true
  | currentBlock :: rest' =>
      if check previousBlock currentBlock
      then checks_from check currentBlock rest'
      else false
  end.

(** [isChainValid()] *)
Definition isChainValid (this : BlockchainUtils) : bool :=
  match chain this with
  | [] => true
  | first :: rest => checks_from block_checks first rest
  end.

(** ** Snapshots *)

(** What the [chain] property of a snapshot holds: nothing, a value that is
    no array (of which the import reads the truthiness only), or an array of
    blocks. *)
Inductive ChainField : Type :=
| chain_absent
| chain_non_array (is_truthy : bool)
| chain_array (blocks : list Block).

(** A snapshot object. [None] is an absent property. *)
Record Snapshot : Type := mkSnapshot {
  snap_chain : ChainField;
  snap_pendingTransactions : option (list Transaction);
  snap_difficulty : option Z;
  exportedAt : option Z;
  version : option string
}.

(** [exportBlockchain()], reading the clock once. *)
Definition exportBlockchain (this : BlockchainUtils) (now : Z) : Snapshot :=
  {| snap_chain := chain_array (chain this);
     snap_pendingTransactions := Some (pendingTransactions this);
     snap_difficulty := Some (difficulty this);
     exportedAt := Some now;
     version := Some "1.0.0" |}.

(** ToBoolean and [Array.isArray] on the [chain] property. *)
Definition chain_truthy (c : ChainField) : bool :=
  match c with
  | chain_absent => false
  | chain_non_array t => t
  | chain_array _ => true
  end.

Definition Array_isArray (c : ChainField) : bool :=
  match c with
  | chain_array _ => true
  | _ => false
  end.

Definition blocks_of (c : ChainField) : list Block :=
  match c with
  | chain_array blocks => blocks
  | _ => []
  end.

(** The test of the import loop on [tempChain[i - 1]], [tempChain[i]]. *)
Definition link_checks (previousBlock currentBlock : Block) : bool :=
  if negb (String.eqb (previousHash currentBlock) (hash previousBlock)) then false
  else true.

Definition chain_checks (check : Block -> Block -> bool) (blocks : list Block) : bool :=
  match blocks with
  | [] => true
  | first :: rest => checks_from check first rest
  end.

(** [importBlockchain(data)]. [x || y] is [y] when [x] is falsy: a missing
    pool reads as the empty one, a missing or zero difficulty keeps the
    current one. *)
Definition importBlockchain (this : BlockchainUtils) (data : Snapshot) : Result bool :=
  if negb (chain_truthy (snap_chain data)) || negb (Array_isArray (snap_chain data))
  then Throw this InvalidFormat
  else
    let tempChain := blocks_of (snap_chain data) in
    if negb (chain_checks link_checks tempChain) then Throw this CorruptedChain
    else
      let chain' := tempChain in
      let pending' := match snap_pendingTransactions data with
                      | Some pool => pool
                      | None => []
                      end in
      let difficulty' := match snap_difficulty data with
                         | Some d => if d =? 0 then difficulty this else d
                         | None => difficulty this
                         end in
      Ok (mkLedger difficulty' pending' chain') true.

(** ** Reachable ledgers *)

(** The ledgers a program gets by constructing one and calling its
    methods, the imported snapshots being taken among the [allowed] ones.
    (The queries and [exportBlockchain] leave the ledger as it is.) *)
Inductive reachable_with (allowed : Snapshot -> Prop) : BlockchainUtils -> Prop :=
| reach_constructor (now1 now2 : Z) :
    reachable_with allowed (constructor now1 now2)
| reach_addTransaction this transaction now1 now2 :
    reachable_with allowed this ->
    reachable_with allowed (ledger_of (addTransaction this transaction now1 now2))
| reach_mineBlock this fuel transactions now r :
    reachable_with allowed this ->
    mineBlock fuel this transactions now = Some r ->
    reachable_with allowed (ledger_of r)
| reach_importBlockchain this data :
    reachable_with allowed this ->
    allowed data ->
    reachable_with allowed (ledger_of (importBlockchain this data)).

(** Any snapshot may be imported. *)
Definition reachable : BlockchainUtils -> Prop :=
  reachable_with (fun _ => True).

(** ** The chain invariant *)

(** For every i > 0, [chain[i].previousHash] is [chain[i-1].hash] and the
    hash recomputed from the stored fields of [chain[i]] is the stored
    one. *)
Definition linked (prev cur : Block) : Prop :=
  previousHash cur = hash prev.

Definition hash_reproduced (cur : Block) : Prop :=
  calculateHash (index cur) (timestamp cur) (transactions cur)
                (previousHash cur) (nonce cur) = hash cur.

Definition chain_invariant (blocks : list Block) : Prop :=
  forall (i : nat) (prev cur : Block),
    nth_error blocks i = Some prev ->
    nth_error blocks (S i) = Some cur ->
    linked prev cur /\ hash_reproduced cur.

(** A string of hexadecimal digits. *)
Definition is_hex_digit (c : ascii) : bool :=
  let n := nat_of_ascii c in
  (Nat.leb 48 n && Nat.leb n 57) || (Nat.leb 97 n && Nat.leb n 102).

Fixpoint is_hex_string (s : string) : bool :=
  match s with
  | EmptyString => true
  | String c s' => is_hex_digit c && is_hex_string s'
  end.

(** [s] starts with [n] characters ['0']. *)
Fixpoint leading_zeros (n : nat) (s : string) : bool :=
  match n, s with
  | O, _ => true
  | S n', String c s' => Ascii.eqb c "0" && leading_zeros n' s'
  | S _, EmptyString => false
  end.

(** ** Vocabulary of the properties and example ledgers *)

(** [this.difficulty = d], a plain field assignment. *)
Definition set_difficulty (this : BlockchainUtils) (d : Z) : BlockchainUtils :=
  mkLedger d (pendingTransactions this) (chain this).

(** A ledger constructed at instant 1000 whose difficulty is then set to 0,
    the one setting at which the search ends. *)
Definition easy_ledger : BlockchainUtils :=
  set_difficulty (constructor 1000 1000) 0.

(** The transaction of the specification's scenario. *)
Definition sample_transaction : Transaction :=
  [ ("type", JS.VStr "project_submission");
    ("signedBy", JS.VStr "user1");
    ("data", JS.VObj [("amount", JS.VNum 100)]) ].

(** A chain built by mining alone: a genesis block, then mined blocks. *)
Inductive mined_only : BlockchainUtils -> Prop :=
| mined_genesis d pool now1 now2 :
    mined_only (createGenesisBlock (mkLedger d pool []) now1 now2)
| mined_block this fuel transactions now r :
    mined_only this ->
    mineBlock fuel this transactions now = Some r ->
    mined_only (ledger_of r)
| mined_set_difficulty this d :
    mined_only this ->
    mined_only (set_difficulty this d).

(** Some adjacent pair of blocks is not linked. *)
Definition broken_link (blocks : list Block) : Prop :=
  exists (i : nat) (prev cur : Block),
    nth_error blocks i = Some prev
    /\ nth_error blocks (S i) = Some cur
    /\ previousHash cur <> hash prev.

Definition imported_pool (data : Snapshot) : list Transaction :=
  match snap_pendingTransactions data with
  | Some pool => pool
  | None => []
  end.

Definition imported_difficulty (this : BlockchainUtils) (data : Snapshot) : Z :=
  match snap_difficulty data with
  | Some d => if d =? 0 then difficulty this else d
  | None => difficulty this
  end.

(** A snapshot without a [chain] property. *)
Definition snapshot_without_chain : Snapshot :=
  mkSnapshot chain_absent (Some [sample_transaction]) (Some 2) None None.

(** A block whose stored hash is not the recomputed one, linked to the
    genesis block of [easy_ledger]: the import takes it, [isChainValid]
    does not. *)
Definition forged_block : Block :=
  {| index := 1; timestamp := 2000; transactions := [];
     previousHash := "[object Object]"; hash := "forged"; nonce := 1 |}.

(** A snapshot whose chain is the empty array. *)
Definition empty_snapshot : Snapshot :=
  mkSnapshot (chain_array []) None None None None.

Definition emptied_ledger : BlockchainUtils :=
  ledger_of (importBlockchain (constructor 1000 1000) empty_snapshot).

(** Block [b] seals a transaction whose [hash] is [h]. *)
Definition seals (h : JS.Value) (b : Block) : Prop :=
  exists tx, In tx (transactions b) /\ has_hash h tx = true.

(** What [getTransactionStatus(h)] is to return, read from the ledger:
    the first block of the chain that seals [h] decides; failing that the
    first pool entry with hash [h]; failing that the answer is [null]. *)
Inductive status_spec (this : BlockchainUtils) (h : JS.Value)
  : option TransactionStatus -> Prop :=
| status_confirmed (i : nat) (b : Block) :
    nth_error (chain this) i = Some b ->
    seals h b ->
    (forall j b', (j < i)%nat -> nth_error (chain this) j = Some b' -> ~ seals h b') ->
    status_spec this h
      (Some {| status := "confirmed";
               blockNumber := Some (index b);
               confirmations := Z.of_nat (List.length (chain this)) - index b;
               statusTimestamp := JS.VNum (timestamp b);
               blockHash := Some (hash b) |})
| status_pending (i : nat) (pendingTx : Transaction) :
    (forall b, In b (chain this) -> ~ seals h b) ->
    nth_error (pendingTransactions this) i = Some pendingTx ->
    has_hash h pendingTx = true ->
    (forall j tx, (j < i)%nat -> nth_error (pendingTransactions this) j = Some tx ->
                  has_hash h tx = false) ->
    status_spec this h
      (Some {| status := "pending";
               blockNumber := None;
               confirmations := 0;
               statusTimestamp := JS.get_prop pendingTx "timestamp";
               blockHash := None |})
| status_not_found :
    (forall b, In b (chain this) -> ~ seals h b) ->
    (forall tx, In tx (pendingTransactions this) -> has_hash h tx = false) ->
    status_spec this h None.

(** [a[i] = x] on an index of the array. *)
Fixpoint replace_at {A : Type} (i : nat) (x : A) (a : list A) : list A :=
  match a, i with
  | [], _ => []
  | _ :: rest, O => x :: rest
  | y :: rest, S i' => y :: replace_at i' x rest
  end.

(** The ledger after block [i] of its chain has been overwritten by [b']. *)
Definition tamper (this : BlockchainUtils) (i : nat) (b' : Block) : BlockchainUtils :=
  mkLedger (difficulty this) (pendingTransactions this) (replace_at i b' (chain this)).

(** [easy_ledger] after one block has been mined at instant 2000. *)
Definition mined_ledger : BlockchainUtils :=
  match mineBlock 1 easy_ledger [] 2000 with
  | Some r => ledger_of r
  | None => easy_ledger
  end.

Definition genesis_block : Block :=
  {| index := 0; timestamp := 1000; transactions := [];
     previousHash := "0"; hash := "[object Object]"; nonce := 0 |}.

(** The genesis block with a transaction slipped in. *)
Definition altered_genesis : Block :=
  {| index := 0; timestamp := 1000; transactions := [sample_transaction];
     previousHash := "0"; hash := "[object Object]"; nonce := 0 |}.

(** The genesis block with another stored hash. *)
Definition rehashed_genesis : Block :=
  {| index := 0; timestamp := 1000; transactions := [];
     previousHash := "0"; hash := "0000abcd"; nonce := 0 |}.

(** A hash that depends on the nonce and first passes the test at 3. *)
Definition staged_hash (nonce : Z) : string :=
  if nonce <? 3 then "a3f1" ++ JS.Number_toString nonce
  else "0000" ++ JS.Number_toString nonce.

Definition chain_linked (blocks : list Block) : Prop :=
  forall (i : nat) (prev cur : Block),
    nth_error blocks i = Some prev ->
    nth_error blocks (S i) = Some cur ->
    linked prev cur.

(** ** The other methods of the class *)

(** One entry of the list [getTransactionHistory] returns:
    [{action: 'mined', blockNumber, timestamp, blockHash,
      details: {nonce, previousHash}}] or
    [{action: 'created', timestamp, details: {type, signedBy}}]. *)
Inductive HistoryEvent : Type :=
| Mined (eventBlockNumber eventTimestamp : Z) (eventBlockHash : string)
        (detailNonce : Z) (detailPreviousHash : string)
| Created (eventTimestamp detailType detailSignedBy : JS.Value).

(** The first loop of [getTransactionHistory]: the first block that holds
    the hash pushes its event and breaks. *)
Fixpoint mined_events (transactionHash : JS.Value) (blocks : list Block)
    : list HistoryEvent :=
  match blocks with
  | [] => []
  | block :: rest =>
      match find (has_hash transactionHash) (transactions block) with
      | Some _ =>
          [Mined (index block) (timestamp block) (hash block)
                 (nonce block) (previousHash block)]
      | None => mined_events transactionHash rest
      end
  end.

(** [getTransactionHistory(transactionHash)]: the 'created' event, when the
    pool holds the hash, is put in front ([unshift]). *)
Definition getTransactionHistory (this : BlockchainUtils) (transactionHash : JS.Value)
    : list HistoryEvent :=
  let history := mined_events transactionHash (chain this) in
  match find (has_hash transactionHash) (pendingTransactions this) with
  | Some pendingTx =>
      Created (JS.get_prop pendingTx "timestamp")
              (JS.get_prop pendingTx "type")
              (JS.get_prop pendingTx "signedBy") :: history
  | None => history
  end.

(** [Math.round(s / n)] for integers [s] and [n > 0]: the quotient rounded
    to the nearest integer, a half going up. (The division is exact in
    double arithmetic up to a rounding that cannot reach a half while
    [|s| < 2^52].) *)
Definition Math_round_quotient (s n : Z) : Z := (2 * s + n) / (2 * n).

Module Stats.

(** The object [getBlockchainStats] returns. *)
Record t : Type := mk {
  totalTransactions : Z;
  pendingTransactions : Z;
  totalBlocks : Z;
  averageDifficulty : Z;
  lastBlockHash : string;
  lastBlockTimestamp : Z;
  chainIntegrity : bool
}.

End Stats.

(** [blocks.reduce((total, block) => total + f(block), 0)] *)
Definition reduce_sum (f : Block -> Z) (blocks : list Block) : Z :=
  fold_left (fun total block => total + f block) blocks 0.

(** [getBlockchainStats()]. The counts and the average are computed first;
    in the object literal [this.getLatestBlock().hash] throws a
    [TypeError] when the chain is empty. *)
Definition getBlockchainStats (this : BlockchainUtils) : Result Stats.t :=
  let totalTransactions :=
    reduce_sum (fun block => Z.of_nat (List.length (transactions block))) (chain this) in
  let pendingTransactions := Z.of_nat (List.length (pendingTransactions this)) in
  let totalBlocks := Z.of_nat (List.length (chain this)) in
  let chainLength := Z.of_nat (List.length (chain this)) in
  let averageDifficulty :=
    if 1 <? chainLength
    then Math_round_quotient (reduce_sum nonce (tl (chain this))) (chainLength - 1)
    else 0 in
  match getLatestBlock this with
  | None => Throw this TypeError
  | Some latest =>
      Ok this
         {| Stats.totalTransactions := totalTransactions;
            Stats.pendingTransactions := pendingTransactions;
            Stats.totalBlocks := totalBlocks;
            Stats.averageDifficulty := averageDifficulty;
            Stats.lastBlockHash := hash latest;
            Stats.lastBlockTimestamp := timestamp latest;
            Stats.chainIntegrity := isChainValid this |}
  end.

(** A parameter that defaults to [{}]: the default applies to [undefined]
    only. *)
Definition default_metadata (metadata : JS.Value) : JS.Value :=
  match metadata with
  | JS.VUndefined => JS.VObj []
  | _ => metadata
  end.

(** [createAdminTransaction(type, data, signedBy, metadata = {})]. [id] is
    the string [uuidv4()] gives; the clock is read for the literal, then
    twice in [addTransaction]. *)
Definition createAdminTransaction (this : BlockchainUtils) (id : string)
    (type data signedBy metadata : JS.Value) (now0 now1 now2 : Z)
    : Result Transaction :=
  let transaction : Transaction :=
    [ ("id", JS.VStr id);
      ("type", type);
      ("data", data);
      ("signedBy", signedBy);
      ("metadata", default_metadata metadata);
      ("timestamp", JS.VNum now0);
      ("status", JS.VStr "pending") ] in
  addTransaction this transaction now1 now2.

(** [createProjectTransaction(projectId, action, data, signedBy, metadata = {})] *)
Definition createProjectTransaction (this : BlockchainUtils) (id : string)
    (projectId action data signedBy metadata : JS.Value) (now0 now1 now2 : Z)
    : Result Transaction :=
  let transaction : Transaction :=
    [ ("id", JS.VStr id);
      ("type", JS.VStr "project_action");
      ("projectId", projectId);
      ("action", action);
      ("data", data);
      ("signedBy", signedBy);
      ("metadata", default_metadata metadata);
      ("timestamp", JS.VNum now0);
      ("status", JS.VStr "pending") ] in
  addTransaction this transaction now1 now2.

(** [createEvaluationTransaction(evaluationId, projectId, action, data,
    signedBy, metadata = {})] *)
Definition createEvaluationTransaction (this : BlockchainUtils) (id : string)
    (evaluationId projectId action data signedBy metadata : JS.Value)
    (now0 now1 now2 : Z) : Result Transaction :=
  let transaction : Transaction :=
    [ ("id", JS.VStr id);
      ("type", JS.VStr "evaluation_action");
      ("evaluationId", evaluationId);
      ("projectId", projectId);
      ("action", action);
      ("data", data);
      ("signedBy", signedBy);
      ("metadata", default_metadata metadata);
      ("timestamp", JS.VNum now0);
      ("status", JS.VStr "pending") ] in
  addTransaction this transaction now1 now2.

Section Cleanup.

(** [ToNumber(s) > n] for a string [s] and a number [n]: the conversion of
    strings to numbers belongs to the runtime and is a parameter here. *)
Variable string_exceeds : string -> Z -> bool.

(** [v > n] for a number [n]. The left side is made a primitive, then a
    number; NaN (from [undefined]) compares false. *)
Definition exceeds (v : JS.Value) (n : Z) : bool :=
  match JS.ToPrimitive v with
  | JS.VUndefined | JS.VNaN => false
  | JS.VNull => n <? 0
  | JS.VBool true => n <? 1
  | JS.VBool false => n <? 0
  | JS.VNum t => n <? t
  | JS.VStr s => string_exceeds s n
  | JS.VArr _ | JS.VObj _ => false
  end.

(** [cleanupOldPendingTransactions(maxAgeInHours = 24)], reading the clock
    once; [None] is a call without argument. The ledger left and the count
    returned. (The line logged when the count is positive is not
    modelled.) *)
Definition cleanupOldPendingTransactions (this : BlockchainUtils)
    (maxAgeInHours : option Z) (now : Z) : BlockchainUtils * Z :=
  let maxAgeInHours := match maxAgeInHours with Some h => h | None => 24 end in
  let cutoffTime := now - maxAgeInHours * 60 * 60 * 1000 in
  let initialCount := Z.of_nat (List.length (pendingTransactions this)) in
  let kept := filter (fun tx => exceeds (JS.get_prop tx "timestamp") cutoffTime)
                     (pendingTransactions this) in
  let this' := mkLedger (difficulty this) kept (chain this) in
  let removedCount := initialCount - Z.of_nat (List.length (pendingTransactions this')) in
  (this', removedCount).

End Cleanup.

(** ** The health routes *)

(** The answers of [GET /api/health/ready], by the message of the body:
    ready (200), or not ready (503) because the database is not connected,
    because [chainIntegrity] is false, or because [getBlockchainStats]
    threw. *)
Inductive Readiness : Type :=
| ServiceReady
| DatabaseNotConnected
| BlockchainCorrupted
| BlockchainNotOperational (e : Error).

(** The handler of [/ready], from [mongoose.connection.readyState] and the
    ledger to the HTTP status and the answer. *)
Definition ready (readyState : Z) (this : BlockchainUtils) : Z * Readiness :=
  if negb (readyState =? 1) then (503, DatabaseNotConnected)
  else
    match getBlockchainStats this with
    | Ok _ blockchainStats =>
        if negb (Stats.chainIntegrity blockchainStats) then (503, BlockchainCorrupted)
        else (200, ServiceReady)
    | Throw _ e => (503, BlockchainNotOperational e)
    end.

(** The [blockchain] section of the body of [GET /api/health]. *)
Inductive BlockchainHealth : Type :=
| Operational (totalBlocks totalTransactions pendingTransactions : Z)
              (chainIntegrity : bool)
| HealthError (e : Error).

(** The handler of [/], as far as the ledger and the database state decide
    it: the HTTP status, [health.status] and [health.blockchain]. (The
    other sections of the body, read from the process, do not bear on
    these.) *)
Definition health (readyState : Z) (this : BlockchainUtils)
    : Z * string * BlockchainHealth :=
  let status := "healthy" in
  let status := if readyState =? 1 then status else "degraded" in
  let '(status, blockchain) :=
    match getBlockchainStats this with
    | Ok _ blockchainStats =>
        (status,
         Operational (Stats.totalBlocks blockchainStats)
                     (Stats.totalTransactions blockchainStats)
                     (Stats.pendingTransactions blockchainStats)
                     (Stats.chainIntegrity blockchainStats))
    | Throw _ e => ("unhealthy", HealthError e)
    end in
  let statusCode :=
    if String.eqb status "healthy" then 200
    else if String.eqb status "degraded" then 200
    else 503 in
  (statusCode, status, blockchain).

(** The ledgers reached without any import. *)
Definition reachable_without_import : BlockchainUtils -> Prop :=
  reachable_with (fun _ => False).

(** A transaction as [addTransaction] leaves it in the pool. *)
Definition pooled_shape (tx : Transaction) : Prop :=
  JS.get_prop tx "hash" = JS.VStr "[object Object]"
  /\ JS.get_prop tx "blockNumber" = JS.VNull
  /\ exists t, JS.get_prop tx "timestamp" = JS.VNum t.

(** The ledger holds a transaction with hash [h], sealed or pending. *)
Definition known (this : BlockchainUtils) (h : JS.Value) : Prop :=
  (exists b, In b (chain this) /\ seals h b)
  \/ (exists tx, In tx (pendingTransactions this) /\ has_hash h tx = true).

(** The outcome of a submission through one of the [create...] methods:
    when [accepted], the call returns an object that is appended to the
    pool and holds the [expected] properties; otherwise it throws the
    invalid-transaction error and leaves the ledger alone. *)
Definition creates (this : BlockchainUtils) (r : Result Transaction)
    (accepted : bool) (expected : list (string * JS.Value)) : Prop :=
  if accepted
  then exists stored,
         r = Ok (mkLedger (difficulty this) (pendingTransactions this ++ [stored])
                          (chain this))
                stored
         /\ Forall (fun kv => JS.get_prop stored (fst kv) = snd kv) expected
  else r = Throw this InvalidTransaction.

(** ** The listings *)

(** [{...tx, blockNumber, confirmations, minedAt}]: a copy of the object
    with the three properties set. *)
Definition annotate (tx : Transaction) (blockNumber confirmations minedAt : JS.Value)
    : Transaction :=
  JS.set_prop (JS.set_prop (JS.set_prop tx "blockNumber" blockNumber)
                           "confirmations" confirmations)
              "minedAt" minedAt.


(** [tx.signedBy === userId] *)
Definition signed_by (userId : JS.Value) (tx : Transaction) : bool :=
  JS.strict_equals (JS.get_prop tx "signedBy") userId.


Section Listings.

(** [transactions.sort((a, b) => b.timestamp - a.timestamp)]: the sort of
    the runtime under that comparison, a parameter here. *)
Variable sort_newest_first : list Transaction -> list Transaction.


(** [getUserTransactions(userId)] *)
Definition getUserTransactions (this : BlockchainUtils) (userId : JS.Value)
    : list Transaction :=
  let mined :=
    flat_map (fun block =>
                let userTxs := filter (signed_by userId) (transactions block) in
                map (fun tx =>
                       annotate tx (JS.VNum (index block))
                                (JS.VNum (Z.of_nat (List.length (chain this)) - index block))
                                (JS.VNum (timestamp block)))
                    userTxs)
             (chain this) in
  let pendingTxs := filter (signed_by userId) (pendingTransactions this) in
  let pending := map (fun tx => annotate tx JS.VNull (JS.VNum 0) JS.VNull) pendingTxs in
  sort_newest_first (mined ++ pending).

End Listings.

(** What a listing holds for the transactions that pass [test]: a copy of
    each sealed one, annotated with its block, or a copy of a pool entry,
    annotated as pending. *)
Definition listed (this : BlockchainUtils) (test : Transaction -> bool)
    (entry : Transaction) : Prop :=
  (exists block tx,
      In block (chain this) /\ In tx (transactions block) /\ test tx = true
      /\ entry = annotate tx (JS.VNum (index block))
                          (JS.VNum (Z.of_nat (List.length (chain this)) - index block))
                          (JS.VNum (timestamp block)))
  \/ (exists tx,
         In tx (pendingTransactions this) /\ test tx = true
         /\ entry = annotate tx JS.VNull (JS.VNum 0) JS.VNull).

(** The number of transactions, sealed or pending, that pass [test]. *)
Definition matching (this : BlockchainUtils) (test : Transaction -> bool) : nat :=
  (List.length (filter test (flat_map transactions (chain this)))
   + List.length (filter test (pendingTransactions this)))%nat.

(** * Properties *)

(** Arithmetic, after turning the boolean comparisons of the context into
    propositions. *)
Ltac zlia :=
  repeat match goal with
         | H : (_ <? _) = true |- _ => apply Z.ltb_lt in H
         | H : (_ <? _) = false |- _ => apply Z.ltb_ge in H
         | H : (_ =? _) = true |- _ => apply Z.eqb_eq in H
         | H : (_ =? _) = false |- _ => apply Z.eqb_neq in H
         end;
  lia.

(** ** The hash engine *)

Lemma calculateHash_value index timestamp transactions previousHash nonce :
  calculateHash index timestamp transactions previousHash nonce = "[object Object]".
Proof. reflexivity. Qed.

Lemma append_assoc (a b c : string) : (a ++ b) ++ c = a ++ (b ++ c).
Proof. induction a as [|x a IH]; cbn; [reflexivity | now rewrite IH]. Qed.

Lemma plus_numbers (a b : Z) : JS.plus (JS.VNum a) (JS.VNum b) = JS.VNum (a + b).
Proof. reflexivity. Qed.

Lemma plus_number_string (a : Z) (s : string) :
  JS.plus (JS.VNum a) (JS.VStr s) = JS.VStr (JS.Number_toString a ++ s).
Proof. reflexivity. Qed.

Lemma plus_strings (s t : string) :
  JS.plus (JS.VStr s) (JS.VStr t) = JS.VStr (s ++ t).
Proof. reflexivity. Qed.

Lemma plus_string_number (s : string) (a : Z) :
  JS.plus (JS.VStr s) (JS.VNum a) = JS.VStr (s ++ JS.Number_toString a).
Proof. reflexivity. Qed.

(** The [+] chain of [calculateHash], operand by operand, is the string
    [calculateHash_data] builds. *)
Lemma calculateHash_data_plus index timestamp transactions previousHash nonce :
  JS.plus (JS.plus (JS.plus (JS.plus (JS.VNum index) (JS.VNum timestamp))
                            (JS.VStr (stringify_transactions transactions)))
                   (JS.VStr previousHash))
          (JS.VNum nonce)
  = JS.VStr (calculateHash_data index timestamp transactions previousHash nonce).
Proof.
  unfold calculateHash_data.
  rewrite plus_numbers, plus_number_string, plus_strings, plus_string_number.
  now rewrite !append_assoc.
Qed.

Lemma generateTransactionHash_value transaction now :
  generateTransactionHash transaction now = inl TypeError
  \/ generateTransactionHash transaction now = inr "[object Object]".
Proof.
  unfold generateTransactionHash.
  destruct (generateTransactionHash_data transaction now); auto.
Qed.

(** C2 (as the code behaves). Both hash functions are constant: whatever
    the block fields or the transaction, the result is the 15 characters
    ["[object Object]"], so equal inputs give equal outputs and the length
    is fixed; but the result is not a string of hexadecimal digits, hence
    not the hexadecimal form of a SHA-256 digest. *)
Theorem hash_engine_output (index timestamp : Z) (transactions : list Transaction)
    (previousHash : string) (nonce : Z) (transaction : Transaction) (now : Z) :
  calculateHash index timestamp transactions previousHash nonce = "[object Object]"
  /\ is_hex_string (calculateHash index timestamp transactions previousHash nonce) = false
  /\ (generateTransactionHash transaction now = inl TypeError
      \/ generateTransactionHash transaction now = inr "[object Object]").
Proof.
  rewrite calculateHash_value.
  repeat split; try reflexivity.
  apply generateTransactionHash_value.
Qed.

(** ** The proof-of-work loop *)

Lemma substring_head (c : ascii) (s : string) (d : Z) :
  1 <= d -> exists rest, JS.String_substring (String c s) 0 d = String c rest.
Proof.
  intros Hd. unfold JS.String_substring.
  set (len := Z.of_nat (String.length (String c s))).
  assert (Hlen : 1 <= len) by (unfold len; cbn [String.length]; lia).
  replace (Z.min (Z.max 0 0) len) with 0 by lia.
  set (b := Z.min (Z.max d 0) len).
  assert (Hb : 1 <= b) by (unfold b; lia).
  replace (Z.min 0 b) with 0 by lia.
  replace (Z.max 0 b) with b by lia.
  replace (b - 0) with b by lia.
  destruct (Z.to_nat b) as [|k] eqn:Hk; [lia|].
  cbn. eauto.
Qed.

Lemma repeat_head (c : ascii) (d : Z) :
  1 <= d -> exists rest, JS.String_repeat (String c "") d = Some (String c rest).
Proof.
  intros Hd. unfold JS.String_repeat.
  destruct (d <? 0) eqn:Hneg; [zlia|].
  destruct (Z.to_nat d) as [|k] eqn:Hk; [lia|].
  cbn. eauto.
Qed.

(** With a difficulty of 1 or more the loop never ends: the hash starts
    with ['['] and the target with ['0']. *)
Lemma proofOfWork_runs_on newIndex newTimestamp transactions previousHash fuel d nonce :
  1 <= d ->
  proofOfWork (calculateHash newIndex newTimestamp transactions previousHash)
              fuel d nonce = None.
Proof.
  intros Hd. revert nonce.
  induction fuel as [|fuel IH]; intros nonce; [reflexivity|].
  cbn [proofOfWork]. rewrite calculateHash_value.
  destruct (repeat_head "0" d Hd) as [zs ->].
  destruct (substring_head "[" "object Object]" d Hd) as [hs ->].
  cbn. apply IH.
Qed.

Lemma substring_zero (h : string) : JS.String_substring h 0 0 = "".
Proof.
  unfold JS.String_substring.
  replace (Z.min (Z.max 0 0) (Z.of_nat (String.length h))) with 0 by lia.
  cbn. now destruct h.
Qed.

(** With difficulty 0 the first hash is accepted. *)
Lemma proofOfWork_zero hashOf fuel nonce :
  proofOfWork hashOf (S fuel) 0 nonce = Some (inr (hashOf nonce, nonce + 1)).
Proof. cbn [proofOfWork]. rewrite substring_zero. reflexivity. Qed.

(** With a negative difficulty the loop test throws. *)
Lemma proofOfWork_negative hashOf fuel d nonce :
  d < 0 ->
  proofOfWork hashOf (S fuel) d nonce = Some (inl RangeError).
Proof.
  intros Hd. cbn [proofOfWork]. unfold JS.String_repeat.
  destruct (d <? 0) eqn:Hneg; [reflexivity|zlia].
Qed.

(** Whenever the loop ends with a hash, it is that fixed string. *)
Lemma proofOfWork_result newIndex newTimestamp transactions previousHash fuel d nonce h n :
  proofOfWork (calculateHash newIndex newTimestamp transactions previousHash)
              fuel d nonce = Some (inr (h, n)) ->
  h = "[object Object]" /\ d = 0 /\ n = nonce + 1.
Proof.
  intros H.
  destruct (Z_lt_le_dec d 0) as [Hneg|Hnn].
  - destruct fuel; [discriminate|].
    rewrite proofOfWork_negative in H by assumption. discriminate.
  - destruct (Z.eq_dec d 0) as [->|Hnz].
    + destruct fuel; [discriminate|].
      rewrite proofOfWork_zero in H. now inversion H.
    + rewrite proofOfWork_runs_on in H by lia. discriminate.
Qed.

(** ** The verification loops, read index by index *)

Lemma checks_from_spec (check : Block -> Block -> bool) (rest : list Block) :
  forall first,
    checks_from check first rest = true <->
    (forall (i : nat) (a b : Block),
        nth_error (first :: rest) i = Some a ->
        nth_error (first :: rest) (S i) = Some b ->
        check a b = true).
Proof.
  induction rest as [|cur rest IH]; intros first; cbn [checks_from].
  - split; [|reflexivity].
    intros _ i a b _ Hb. destruct i; discriminate.
  - split.
    + intros H i a b Ha Hb.
      destruct (check first cur) eqn:Hc; [|discriminate].
      destruct i as [|i].
      * cbn in Ha, Hb. now inversion Ha; inversion Hb; subst.
      * apply (proj1 (IH cur) H i a b); assumption.
    + intros H.
      rewrite (H 0%nat first cur) by reflexivity.
      apply IH. intros i a b Ha Hb. now apply (H (S i)).
Qed.

Lemma chain_checks_spec (check : Block -> Block -> bool) (blocks : list Block) :
  chain_checks check blocks = true <->
  (forall (i : nat) (a b : Block),
      nth_error blocks i = Some a ->
      nth_error blocks (S i) = Some b ->
      check a b = true).
Proof.
  destruct blocks as [|first rest].
  - split; [|reflexivity]. intros _ i a b Ha. destruct i; discriminate.
  - apply checks_from_spec.
Qed.

(** When a loop fails, some adjacent pair fails its test. *)
Lemma chain_checks_false (check : Block -> Block -> bool) (blocks : list Block) :
  chain_checks check blocks = false <->
  (exists (i : nat) (a b : Block),
      nth_error blocks i = Some a /\
      nth_error blocks (S i) = Some b /\
      check a b = false).
Proof.
  split.
  - destruct blocks as [|first rest]; [discriminate|]. cbn [chain_checks].
    revert first. induction rest as [|cur rest IH]; intros first; cbn [checks_from].
    + discriminate.
    + destruct (check first cur) eqn:Hc.
      * intros H. destruct (IH cur H) as (i & a & b & Ha & Hb & Hab).
        exists (S i), a, b. auto.
      * intros _. exists 0%nat, first, cur. auto.
  - intros (i & a & b & Ha & Hb & Hab).
    destruct (chain_checks check blocks) eqn:Hall; [|reflexivity].
    rewrite (proj1 (chain_checks_spec check blocks) Hall i a b Ha Hb) in Hab.
    discriminate.
Qed.

Lemma block_checks_spec (prev cur : Block) :
  block_checks prev cur = true <-> linked prev cur /\ hash_reproduced cur.
Proof.
  unfold block_checks, linked, hash_reproduced.
  destruct (String.eqb_spec (previousHash cur) (hash prev)) as [Hl|Hl]; cbn.
  - destruct (String.eqb_spec (hash cur)
                (calculateHash (index cur) (timestamp cur) (transactions cur)
                               (previousHash cur) (nonce cur))) as [Hh|Hh]; cbn.
    + split; auto.
    + split; [discriminate|]. intros [_ H]. now symmetry in H.
  - split; [discriminate|]. now intros [H _].
Qed.

Lemma link_checks_spec (prev cur : Block) :
  link_checks prev cur = true <-> linked prev cur.
Proof.
  unfold link_checks, linked.
  destruct (String.eqb_spec (previousHash cur) (hash prev)); cbn;
    split; auto; discriminate.
Qed.

Lemma isChainValid_chain_checks (this : BlockchainUtils) :
  isChainValid this = chain_checks block_checks (chain this).
Proof. reflexivity. Qed.

(** [isChainValid()] decides the chain invariant. *)
Lemma isChainValid_iff_invariant (this : BlockchainUtils) :
  isChainValid this = true <-> chain_invariant (chain this).
Proof.
  rewrite isChainValid_chain_checks, chain_checks_spec. unfold chain_invariant.
  split; intros H i a b Ha Hb.
  - apply block_checks_spec. eauto.
  - apply block_checks_spec. eauto.
Qed.

(** ** Mining *)

Lemma getLatestBlock_Some (this : BlockchainUtils) (b : Block) :
  getLatestBlock this = Some b ->
  exists n, List.length (chain this) = S n /\ nth_error (chain this) n = Some b.
Proof.
  unfold getLatestBlock, Array_get.
  destruct (chain this) as [|b0 rest] eqn:Hc; [discriminate|].
  cbn [List.length].
  destruct (Z.of_nat (S (List.length rest)) - 1 <? 0) eqn:Hneg; [zlia|].
  replace (Z.to_nat (Z.of_nat (S (List.length rest)) - 1)) with (List.length rest) by lia.
  eauto.
Qed.

Lemma getLatestBlock_None (this : BlockchainUtils) :
  getLatestBlock this = None <-> chain this = [].
Proof.
  unfold getLatestBlock, Array_get. split.
  - destruct (chain this) as [|b0 rest]; [reflexivity|].
    cbn [List.length].
    destruct (Z.of_nat (S (List.length rest)) - 1 <? 0) eqn:Hneg; [zlia|].
    replace (Z.to_nat (Z.of_nat (S (List.length rest)) - 1)) with (List.length rest) by lia.
    intros H. apply nth_error_None in H. cbn in H. lia.
  - intros ->. reflexivity.
Qed.

(** Pushing a block that links to the last one and reproduces its own hash
    keeps the invariant. *)
Lemma chain_invariant_push (blocks : list Block) (n : nat) (last new : Block) :
  chain_invariant blocks ->
  List.length blocks = S n ->
  nth_error blocks n = Some last ->
  linked last new ->
  hash_reproduced new ->
  chain_invariant (blocks ++ [new]).
Proof.
  intros Hinv Hlen Hlast Hlink Hhash i prev cur Hp Hc.
  destruct (Nat.lt_ge_cases (S i) (List.length blocks)) as [Hlt|Hge].
  - rewrite nth_error_app1 in Hp, Hc by lia. eauto.
  - rewrite nth_error_app2 in Hc by lia.
    destruct (S i - List.length blocks)%nat as [|k] eqn:Hk.
    + cbn in Hc. inversion Hc; subst cur.
      assert (i = n) by lia. subst i.
      rewrite nth_error_app1 in Hp by lia.
      rewrite Hlast in Hp. inversion Hp; subst prev. auto.
    + destruct k; discriminate.
Qed.

(** What a call of [mineBlock] that returns has done. *)
Lemma mineBlock_returns fuel this transactions now this' newBlock :
  mineBlock fuel this transactions now = Some (Ok this' newBlock) ->
  exists n previousBlock,
    List.length (chain this) = S n
    /\ nth_error (chain this) n = Some previousBlock
    /\ difficulty this = 0
    /\ newBlock = {| index := index previousBlock + 1;
                     timestamp := now;
                     transactions := transactions;
                     previousHash := hash previousBlock;
                     hash := "[object Object]";
                     nonce := 1 |}
    /\ this' = mkLedger (difficulty this) (pendingTransactions this)
                        (chain this ++ [newBlock]).
Proof.
  unfold mineBlock. intros H.
  destruct (getLatestBlock this) as [previousBlock|] eqn:Hlast; [|discriminate].
  destruct (getLatestBlock_Some _ _ Hlast) as (n & Hlen & Hn).
  destruct (proofOfWork (calculateHash (index previousBlock + 1) now transactions
                                       (hash previousBlock))
                        fuel (difficulty this) 0) as [[e|[h k]]|] eqn:Hpow;
    try discriminate.
  destruct (proofOfWork_result _ _ _ _ _ _ _ _ _ Hpow) as (-> & Hd & ->).
  inversion H; subst. exists n, previousBlock. auto.
Qed.

(** A call that throws leaves the ledger as it was. *)
Lemma mineBlock_throws fuel this transactions now this' e :
  mineBlock fuel this transactions now = Some (Throw this' e) -> this' = this.
Proof.
  unfold mineBlock. intros H.
  destruct (getLatestBlock this) as [previousBlock|]; [|now inversion H].
  destruct (proofOfWork (calculateHash (index previousBlock + 1) now transactions
                                       (hash previousBlock))
                        fuel (difficulty this) 0) as [[e'|[h k]]|];
    try discriminate.
  now inversion H.
Qed.

Lemma mineBlock_invariant fuel this transactions now r :
  chain_invariant (chain this) ->
  mineBlock fuel this transactions now = Some r ->
  chain_invariant (chain (ledger_of r)).
Proof.
  intros Hinv H. destruct r as [this' newBlock|this' e]; cbn [ledger_of].
  - destruct (mineBlock_returns _ _ _ _ _ _ H)
      as (n & previousBlock & Hlen & Hn & _ & Hb & ->).
    cbn [chain]. apply (chain_invariant_push _ n previousBlock); auto.
    + subst newBlock. reflexivity.
    + subst newBlock. reflexivity.
  - now rewrite (mineBlock_throws _ _ _ _ _ _ H).
Qed.

(** C1. Mining keeps the chain invariant: if the invariant (every block
    after the first names its predecessor's hash, and its stored hash is
    the one recomputed from its stored fields) holds before a call of
    [mineBlock] that ends, it holds after it, and [isChainValid()] then
    answers true. *)
Theorem mineBlock_preserves_chain_invariant (fuel : nat) (this : BlockchainUtils)
    (transactions : list Transaction) (now : Z) (r : Result Block) :
  chain_invariant (chain this) ->
  mineBlock fuel this transactions now = Some r ->
  chain_invariant (chain (ledger_of r)) /\ isChainValid (ledger_of r) = true.
Proof.
  intros Hinv H.
  assert (Hinv' := mineBlock_invariant _ _ _ _ _ Hinv H).
  split; [assumption|]. now apply isChainValid_iff_invariant.
Qed.

Lemma mineBlock_preserves_chain_invariant_witness :
  exists r,
    mineBlock 1 easy_ledger [] 2000 = Some r
    /\ chain_invariant (chain (ledger_of r))
    /\ isChainValid (ledger_of r) = true.
Proof.
  eexists. split; [reflexivity|].
  eapply (mineBlock_preserves_chain_invariant 1 easy_ledger [] 2000).
  - apply isChainValid_iff_invariant. reflexivity.
  - reflexivity.
Defined.

(** [isChainValid()] answers true on every chain built by mining alone. *)
Lemma mined_only_valid (this : BlockchainUtils) :
  mined_only this -> isChainValid this = true.
Proof.
  intros H. apply isChainValid_iff_invariant.
  induction H as [d pool now1 now2|this fuel transactions now r _ IH Hm|this d _ IH].
  - intros i prev cur _ Hc. destruct i; discriminate.
  - eapply mineBlock_invariant; eauto.
  - exact IH.
Qed.

(** On a chain that is not empty, a difficulty of 1 or more keeps
    [mineBlock] searching for ever. *)
Lemma mineBlock_runs_on fuel this transactions now :
  1 <= difficulty this ->
  chain this <> [] ->
  mineBlock fuel this transactions now = None.
Proof.
  intros Hd Hne. unfold mineBlock.
  destruct (getLatestBlock this) as [previousBlock|] eqn:Hlast.
  - now rewrite proofOfWork_runs_on.
  - apply getLatestBlock_None in Hlast. contradiction.
Qed.

(** C6 (as the code behaves). On a newly constructed ledger, whose
    difficulty is 4, [mineBlock] does not return for any transaction list,
    however long the search is left running: no block is appended, and no
    hash with four leading zeros is ever found. *)
Theorem mineBlock_new_ledger_never_returns (now1 now2 : Z) (fuel : nat)
    (transactions : list Transaction) (now : Z) :
  mineBlock fuel (constructor now1 now2) transactions now = None.
Proof.
  apply mineBlock_runs_on.
  - cbn. lia.
  - discriminate.
Qed.

(** Where [mineBlock] does return, the properties of C6 hold of the block
    it appends. *)
Lemma mineBlock_returns_monotone fuel this transactions now this' newBlock :
  mineBlock fuel this transactions now = Some (Ok this' newBlock) ->
  List.length (chain this') = S (List.length (chain this))
  /\ (exists latest, getLatestBlock this = Some latest
                     /\ previousHash newBlock = hash latest)
  /\ getLatestBlock this' = Some newBlock
  /\ leading_zeros (Z.to_nat (difficulty this)) (hash newBlock) = true.
Proof.
  intros H.
  assert (Hlatest : exists latest, getLatestBlock this = Some latest
                                   /\ previousHash newBlock = hash latest).
  { unfold mineBlock in H.
    destruct (getLatestBlock this) as [latest|]; [|discriminate].
    exists latest. split; [reflexivity|].
    destruct (proofOfWork (calculateHash (index latest + 1) now transactions
                                         (hash latest))
                          fuel (difficulty this) 0) as [[e|[h k]]|]; try discriminate.
    now inversion H. }
  destruct (mineBlock_returns _ _ _ _ _ _ H)
    as (n & previousBlock & Hlen & Hn & Hd & Hb & ->).
  cbn [chain]. rewrite Hd. repeat split.
  - rewrite length_app. cbn. lia.
  - exact Hlatest.
  - unfold getLatestBlock, Array_get. cbn [chain].
    rewrite length_app. cbn [List.length].
    destruct (Z.of_nat (List.length (chain this) + 1) - 1 <? 0) eqn:Hneg; [zlia|].
    replace (Z.to_nat (Z.of_nat (List.length (chain this) + 1) - 1))
      with (List.length (chain this)) by lia.
    rewrite nth_error_app2 by lia. now rewrite Nat.sub_diag.
Qed.

(** [mineBlock] neither reads nor writes the pool, and seals the objects it
    was handed as they are. *)
Lemma mineBlock_keeps_pool fuel this txs now r :
  mineBlock fuel this txs now = Some r ->
  pendingTransactions (ledger_of r) = pendingTransactions this
  /\ (forall this' newBlock, r = Ok this' newBlock ->
                             transactions newBlock = txs).
Proof.
  intros H. destruct r as [this' newBlock|this' e]; cbn [ledger_of].
  - destruct (mineBlock_returns _ _ _ _ _ _ H)
      as (n & previousBlock & _ & _ & _ & Hb & ->).
    split; [reflexivity|].
    intros this'' b' Heq. inversion Heq; subst. reflexivity.
  - rewrite (mineBlock_throws _ _ _ _ _ _ H). split; [reflexivity|discriminate].
Qed.

(** C3 (as the code behaves). A transaction admitted to the pool (its
    [blockNumber] is null) and then handed to a [mineBlock] call that
    returns is sealed into the new block, of index 1, but it is still in
    the pool afterwards and its [blockNumber] is still null. *)
Theorem mined_transaction_stays_pending :
  exists this1 tx this2 newBlock,
    addTransaction easy_ledger sample_transaction 1500 1500 = Ok this1 tx
    /\ pendingTransactions this1 = [tx]
    /\ JS.get_prop tx "blockNumber" = JS.VNull
    /\ mineBlock 1 this1 [tx] 2000 = Some (Ok this2 newBlock)
    /\ index newBlock = 1
    /\ transactions newBlock = [tx]
    /\ pendingTransactions this2 = [tx]
    /\ getLatestBlock this2 = Some newBlock.
Proof.
  do 4 eexists. split; [reflexivity|].
  split; [reflexivity|]. split; [reflexivity|].
  split; [reflexivity|]. repeat split.
Qed.

(** ** Submission *)

(** A transaction object that carries no [hash] yet passes the duplicate
    test as long as every stored transaction has one. *)
Lemma transactionExists_undefined (this : BlockchainUtils) :
  (forall b tx, In b (chain this) -> In tx (transactions b) ->
                JS.get_prop tx "hash" <> JS.VUndefined) ->
  (forall tx, In tx (pendingTransactions this) ->
              JS.get_prop tx "hash" <> JS.VUndefined) ->
  transactionExists this JS.VUndefined = false.
Proof.
  intros Hchain Hpool. unfold transactionExists.
  assert (Hno : forall tx, JS.get_prop tx "hash" <> JS.VUndefined ->
                           has_hash JS.VUndefined tx = false).
  { intros tx Htx. unfold has_hash.
    destruct (JS.get_prop tx "hash"); try reflexivity. contradiction. }
  destruct (existsb (fun block => existsb (has_hash JS.VUndefined) (transactions block))
                    (chain this)) eqn:Hc.
  - apply existsb_exists in Hc. destruct Hc as (b & Hb & Hex).
    apply existsb_exists in Hex. destruct Hex as (tx & Htx & Hh).
    rewrite (Hno tx (Hchain b tx Hb Htx)) in Hh. discriminate.
  - destruct (existsb (has_hash JS.VUndefined) (pendingTransactions this)) eqn:Hp;
      [|reflexivity].
    apply existsb_exists in Hp. destruct Hp as (tx & Htx & Hh).
    rewrite (Hno tx (Hpool tx Htx)) in Hh. discriminate.
Qed.

(** C4 (as the code behaves). Two submissions of equal content: the first
    is admitted with the hash ["[object Object]"]; the second, a fresh
    object that has no [hash] property when it is validated, passes
    [isValidTransaction] and is admitted too, with the same hash. The pool
    then holds both. *)
Theorem duplicate_submission_accepted :
  exists this1 tx1 this2 tx2,
    addTransaction (constructor 1000 1000) sample_transaction 1500 1500 = Ok this1 tx1
    /\ JS.get_prop sample_transaction "hash" = JS.VUndefined
    /\ isValidTransaction this1 sample_transaction = true
    /\ addTransaction this1 sample_transaction 1500 1500 = Ok this2 tx2
    /\ JS.get_prop tx1 "hash" = JS.VStr "[object Object]"
    /\ JS.get_prop tx2 "hash" = JS.VStr "[object Object]"
    /\ pendingTransactions this2 = [tx1; tx2].
Proof.
  do 4 eexists. split; [reflexivity|].
  split; [reflexivity|]. split; [reflexivity|].
  split; [reflexivity|]. repeat split.
Qed.

(** The duplicate test fires only on an object that already carries a
    stored hash, such as the very object a first call returned. *)
Example resubmitted_object_rejected :
  exists this1 tx1,
    addTransaction (constructor 1000 1000) sample_transaction 1500 1500 = Ok this1 tx1
    /\ addTransaction this1 tx1 1600 1600 = Throw this1 InvalidTransaction.
Proof. do 2 eexists. split; reflexivity. Qed.

(** ** Import *)

Lemma link_checks_false (prev cur : Block) :
  link_checks prev cur = false <-> previousHash cur <> hash prev.
Proof.
  unfold link_checks.
  destruct (String.eqb_spec (previousHash cur) (hash prev)); cbn; split;
    auto; try discriminate; contradiction.
Qed.

Lemma broken_link_checks (blocks : list Block) :
  chain_checks link_checks blocks = false <-> broken_link blocks.
Proof.
  rewrite chain_checks_false. unfold broken_link.
  split; intros (i & a & b & Ha & Hb & H); exists i, a, b;
    (split; [assumption|split; [assumption|]]); now apply link_checks_false.
Qed.

(** C7. [importBlockchain] throws the invalid-format error exactly when the
    [chain] property is missing or is no array; it throws the
    corrupted-chain error exactly when the property is an array with an
    adjacent pair of blocks whose [previousHash] and [hash] differ (the
    hashes themselves are not recomputed); and in the remaining case it
    returns true, the ledger's chain being the snapshot's chain and its
    pool the snapshot's pool (the empty pool if the snapshot has none). *)
Theorem importBlockchain_outcomes (this : BlockchainUtils) (data : Snapshot) :
  (importBlockchain this data = Throw this InvalidFormat <->
     (snap_chain data = chain_absent
      \/ exists t, snap_chain data = chain_non_array t))
  /\ (importBlockchain this data = Throw this CorruptedChain <->
        (exists blocks, snap_chain data = chain_array blocks /\ broken_link blocks))
  /\ (forall blocks,
         snap_chain data = chain_array blocks ->
         ~ broken_link blocks ->
         importBlockchain this data =
           Ok (mkLedger (imported_difficulty this data) (imported_pool data) blocks) true).
Proof.
  unfold importBlockchain, imported_difficulty, imported_pool.
  destruct (snap_chain data) as [|t|blocks] eqn:Hc; cbn [chain_truthy Array_isArray blocks_of].
  - replace (negb false || negb false) with true by reflexivity.
    split; [|split].
    + split; auto.
    + split; [discriminate|]. intros (bs & Hbs & _). discriminate.
    + intros bs Hbs. discriminate.
  - replace (negb t || negb false) with true by (destruct t; reflexivity).
    split; [|split].
    + split; eauto.
    + split; [discriminate|]. intros (bs & Hbs & _). discriminate.
    + intros bs Hbs. discriminate.
  - cbn [negb orb].
    destruct (chain_checks link_checks blocks) eqn:Hl; cbn [negb].
    + assert (Hnb : ~ broken_link blocks).
      { intros Hb. apply broken_link_checks in Hb. congruence. }
      split; [|split].
      * split; [discriminate|]. intros [H|[t H]]; discriminate.
      * split; [discriminate|].
        intros (bs & Hbs & Hb). inversion Hbs; subst. contradiction.
      * intros bs Hbs _. inversion Hbs; subst. reflexivity.
    + assert (Hb : broken_link blocks) by now apply broken_link_checks.
      split; [|split].
      * split; [discriminate|]. intros [H|[t H]]; discriminate.
      * split; eauto.
      * intros bs Hbs Hnb. inversion Hbs; subst. contradiction.
Qed.

(** C10. A call of [importBlockchain] that throws leaves the ledger as it
    was: same chain, same pool, same difficulty. *)
Theorem importBlockchain_throw_keeps_ledger (this : BlockchainUtils) (data : Snapshot)
    (this' : BlockchainUtils) (e : Error) :
  importBlockchain this data = Throw this' e ->
  this' = this
  /\ chain this' = chain this
  /\ pendingTransactions this' = pendingTransactions this
  /\ difficulty this' = difficulty this.
Proof.
  unfold importBlockchain. intros H.
  assert (Heq : this' = this).
  { destruct (negb (chain_truthy (snap_chain data)) || negb (Array_isArray (snap_chain data)));
      [now inversion H|].
    destruct (negb (chain_checks link_checks (blocks_of (snap_chain data))));
      [now inversion H|discriminate]. }
  subst this'. auto.
Qed.

Lemma importBlockchain_throw_keeps_ledger_witness :
  importBlockchain easy_ledger snapshot_without_chain = Throw easy_ledger InvalidFormat
  /\ (easy_ledger = easy_ledger
      /\ chain easy_ledger = chain easy_ledger
      /\ pendingTransactions easy_ledger = pendingTransactions easy_ledger
      /\ difficulty easy_ledger = difficulty easy_ledger).
Proof.
  split; [reflexivity|].
  apply (importBlockchain_throw_keeps_ledger easy_ledger snapshot_without_chain
           easy_ledger InvalidFormat).
  reflexivity.
Defined.

Example import_accepts_unverified_hash :
  exists this',
    importBlockchain easy_ledger
      (mkSnapshot (chain_array (chain easy_ledger ++ [forged_block])) None None None None)
    = Ok this' true
    /\ isChainValid this' = false.
Proof. eexists. split; reflexivity. Qed.

(** Export then import gives the ledger back when its blocks are linked. *)
Lemma import_export (this : BlockchainUtils) (now : Z) :
  chain_checks link_checks (chain this) = true ->
  importBlockchain this (exportBlockchain this now) = Ok this true.
Proof.
  intros Hl. unfold importBlockchain, exportBlockchain. cbn.
  rewrite Hl. cbn.
  destruct (difficulty this =? 0) eqn:Hz; now destruct this.
Qed.

(** ** Reachable ledgers and the latest block *)

(** C9 (as the code behaves). Constructing a ledger and importing a
    snapshot whose chain is the empty array succeeds and leaves a ledger
    with an empty chain: [getLatestBlock()] then returns [undefined], and
    [mineBlock], which reads a property of that result, throws a
    [TypeError]. *)
Theorem import_empties_chain :
  reachable emptied_ledger
  /\ importBlockchain (constructor 1000 1000) empty_snapshot = Ok emptied_ledger true
  /\ chain emptied_ledger = []
  /\ getLatestBlock emptied_ledger = None
  /\ mineBlock 1 emptied_ledger [] 2000 = Some (Throw emptied_ledger TypeError).
Proof.
  split; [|repeat split].
  apply reach_importBlockchain; [apply reach_constructor|exact I].
Qed.

Lemma addTransaction_chain this transaction now1 now2 :
  chain (ledger_of (addTransaction this transaction now1 now2)) = chain this.
Proof.
  unfold addTransaction.
  destruct (negb (isValidTransaction this transaction)); [reflexivity|].
  destruct (generateTransactionHash transaction now1); reflexivity.
Qed.

Lemma mineBlock_chain_nonempty fuel this transactions now r :
  mineBlock fuel this transactions now = Some r ->
  chain this <> [] -> chain (ledger_of r) <> [].
Proof.
  intros H Hne. destruct r as [this' b|this' e]; cbn [ledger_of].
  - destruct (mineBlock_returns _ _ _ _ _ _ H) as (n & p & _ & _ & _ & _ & ->).
    cbn [chain]. intros Happ. apply app_eq_nil in Happ. destruct Happ. discriminate.
  - now rewrite (mineBlock_throws _ _ _ _ _ _ H).
Qed.

Lemma importBlockchain_chain this data :
  chain (ledger_of (importBlockchain this data)) = chain this
  \/ snap_chain data = chain_array (chain (ledger_of (importBlockchain this data))).
Proof.
  unfold importBlockchain.
  destruct (snap_chain data) as [|t|blocks]; cbn [chain_truthy Array_isArray blocks_of].
  - left. reflexivity.
  - left. destruct t; reflexivity.
  - cbn [negb orb].
    destruct (negb (chain_checks link_checks blocks)); [left|right]; reflexivity.
Qed.

(** Construction, submission and mining keep the chain non-empty, and an
    import installs the chain of its snapshot: as long as no snapshot with
    an empty chain is imported, the chain is not empty. *)
Lemma reachable_chain_nonempty (this : BlockchainUtils) :
  reachable_with (fun data => snap_chain data <> chain_array []) this ->
  chain this <> [].
Proof.
  induction 1 as [now1 now2|this tx now1 now2 _ IH|this fuel txs now r _ IH Hm
                 |this data _ IH Hdata].
  - discriminate.
  - now rewrite addTransaction_chain.
  - now apply (mineBlock_chain_nonempty _ _ _ _ _ Hm).
  - destruct (importBlockchain_chain this data) as [Heq|Heq].
    + now rewrite Heq.
    + intros Hnil. rewrite Hnil in Heq. contradiction.
Qed.

(** ** Status lookup *)

Lemma find_first {A : Type} (f : A -> bool) (l : list A) (x : A) :
  find f l = Some x ->
  exists i, nth_error l i = Some x
            /\ f x = true
            /\ (forall j y, (j < i)%nat -> nth_error l j = Some y -> f y = false).
Proof.
  induction l as [|a l IH]; cbn [find]; [discriminate|].
  destruct (f a) eqn:Hfa.
  - intros H. inversion H; subst a. exists 0%nat. repeat split; auto.
    intros j y Hj. lia.
  - intros H. destruct (IH H) as (i & Hi & Hfx & Hbefore).
    exists (S i). repeat split; auto.
    intros j y Hj Hy. destruct j as [|j].
    + cbn in Hy. now inversion Hy; subst.
    + apply (Hbefore j y); [lia|assumption].
Qed.

Lemma seals_find (h : JS.Value) (b : Block) :
  seals h b <-> find (has_hash h) (transactions b) <> None.
Proof.
  unfold seals. split.
  - intros (tx & Hin & Htx) Hnone.
    rewrite (find_none _ _ Hnone tx Hin) in Htx. discriminate.
  - destruct (find (has_hash h) (transactions b)) as [tx|] eqn:Hf; [|congruence].
    intros _. apply find_some in Hf. now exists tx.
Qed.

Lemma status_in_blocks_Some len h blocks s :
  status_in_blocks len h blocks = Some s ->
  exists i b,
    nth_error blocks i = Some b
    /\ seals h b
    /\ (forall j b', (j < i)%nat -> nth_error blocks j = Some b' -> ~ seals h b')
    /\ s = {| status := "confirmed";
              blockNumber := Some (index b);
              confirmations := len - index b;
              statusTimestamp := JS.VNum (timestamp b);
              blockHash := Some (hash b) |}.
Proof.
  induction blocks as [|block rest IH]; cbn [status_in_blocks]; [discriminate|].
  destruct (find (has_hash h) (transactions block)) as [tx|] eqn:Hf.
  - intros H. inversion H; subst s. exists 0%nat, block. repeat split.
    + apply seals_find. congruence.
    + intros j b' Hj. lia.
  - intros H. destruct (IH H) as (i & b & Hi & Hs & Hbefore & ->).
    exists (S i), b. repeat split; auto.
    intros j b' Hj Hb'. destruct j as [|j].
    + cbn in Hb'. inversion Hb'; subst b'. rewrite seals_find. congruence.
    + apply (Hbefore j b'); [lia|assumption].
Qed.

Lemma status_in_blocks_None len h blocks :
  status_in_blocks len h blocks = None ->
  forall b, In b blocks -> ~ seals h b.
Proof.
  induction blocks as [|block rest IH]; cbn [status_in_blocks]; [intros _ b []|].
  destruct (find (has_hash h) (transactions block)) as [tx|] eqn:Hf; [discriminate|].
  intros H b [->|Hin].
  - rewrite seals_find. congruence.
  - now apply IH.
Qed.

(** C8. [getTransactionStatus(h)] looks in the sealed blocks first: if
    [b] is the first block sealing a transaction with hash [h], the answer
    is 'confirmed' with [b]'s index as block number, the chain length minus
    that index as confirmations, and [b]'s timestamp and hash. If no block
    seals [h] and the pool holds it, the answer is 'pending' with a null
    block number, zero confirmations and a null block hash. Otherwise the
    answer is [null]. *)
Theorem getTransactionStatus_spec (this : BlockchainUtils) (h : JS.Value) :
  status_spec this h (getTransactionStatus this h).
Proof.
  unfold getTransactionStatus.
  destruct (status_in_blocks (Z.of_nat (List.length (chain this))) h (chain this))
    as [s|] eqn:Hb.
  - destruct (status_in_blocks_Some _ _ _ _ Hb) as (i & b & Hi & Hs & Hbefore & ->).
    now apply (status_confirmed this h i b).
  - assert (Hnone := status_in_blocks_None _ _ _ Hb).
    destruct (find (has_hash h) (pendingTransactions this)) as [pendingTx|] eqn:Hp.
    + destruct (find_first _ _ _ Hp) as (i & Hi & Hh & Hbefore).
      now apply (status_pending this h i pendingTx).
    + apply status_not_found; [assumption|].
      intros tx Hin. apply (find_none _ _ Hp tx Hin).
Qed.

(** The scenario of the specification, at the one difficulty where the
    search ends: submit, mine, look the transaction up. *)
Example status_after_mining :
  exists this1 tx this2 newBlock,
    addTransaction easy_ledger sample_transaction 1500 1500 = Ok this1 tx
    /\ mineBlock 1 this1 [tx] 2000 = Some (Ok this2 newBlock)
    /\ getTransactionStatus this2 (JS.get_prop tx "hash")
       = Some {| status := "confirmed";
                 blockNumber := Some 1;
                 confirmations := 1;
                 statusTimestamp := JS.VNum 2000;
                 blockHash := Some "[object Object]" |}.
Proof. do 4 eexists. repeat split. Qed.

(** ** Tampering *)

Lemma nth_error_replace_at_same {A : Type} (a : list A) (i : nat) (x y : A) :
  nth_error a i = Some x -> nth_error (replace_at i y a) i = Some y.
Proof.
  revert i. induction a as [|z a IH]; intros [|i] H; try discriminate.
  - reflexivity.
  - cbn. now apply IH.
Qed.

Lemma nth_error_replace_at_other {A : Type} (a : list A) (i j : nat) (y : A) :
  j <> i -> nth_error (replace_at i y a) j = nth_error a j.
Proof.
  revert i j. induction a as [|z a IH]; intros [|i] [|j] H; try reflexivity.
  - contradiction.
  - cbn. apply IH. lia.
Qed.

(** C5, the claim at a concrete chain. The chain of [mined_ledger] has two
    blocks and is valid; its genesis block, which is not the latest one, is
    given a transaction it did not hold; [isChainValid()] still answers
    true. *)
Lemma genesis_tampering_undetected :
  isChainValid mined_ledger = true
  /\ List.length (chain mined_ledger) = 2%nat
  /\ nth_error (chain mined_ledger) 0 = Some genesis_block
  /\ transactions genesis_block = []
  /\ transactions altered_genesis = [sample_transaction]
  /\ isChainValid (tamper mined_ledger 0 altered_genesis) = true.
Proof. repeat split. Qed.

(** C5, amended. On a chain that [isChainValid()] accepts: overwriting the
    stored [hash] of a block that is not the latest, or the [previousHash]
    of a block that is not the first, makes [isChainValid()] answer false;
    overwriting the first block in any way that keeps its stored [hash]
    leaves the answer true. *)
Theorem tampering_detected (this : BlockchainUtils) (i : nat) (b b' : Block) :
  isChainValid this = true ->
  nth_error (chain this) i = Some b ->
  ((S i < List.length (chain this))%nat -> hash b' <> hash b ->
     isChainValid (tamper this i b') = false)
  /\ ((0 < i)%nat -> previousHash b' <> previousHash b ->
        isChainValid (tamper this i b') = false)
  /\ (i = 0%nat -> hash b' = hash b ->
        isChainValid (tamper this i b') = true).
Proof.
  intros Hvalid Hb.
  assert (Hinv := proj1 (isChainValid_iff_invariant this) Hvalid).
  split; [|split].
  - intros Hnext Hhash.
    destruct (nth_error (chain this) (S i)) as [next|] eqn:Hn;
      [|apply nth_error_None in Hn; lia].
    destruct (Hinv i b next Hb Hn) as [Hlink _].
    rewrite isChainValid_chain_checks. apply chain_checks_false.
    exists i, b', next. cbn [tamper chain]. split; [|split].
    + now apply (nth_error_replace_at_same _ _ b).
    + rewrite nth_error_replace_at_other by lia. exact Hn.
    + unfold block_checks. unfold linked in Hlink. rewrite Hlink.
      destruct (String.eqb_spec (hash b) (hash b')) as [Heq|Hne]; [|reflexivity].
      now symmetry in Heq.
  - intros Hpos Hprev. destruct i as [|j]; [lia|].
    destruct (nth_error (chain this) j) as [before|] eqn:Hj.
    2:{ apply nth_error_None in Hj.
        assert (nth_error (chain this) (S j) = None) by (apply nth_error_None; lia).
        congruence. }
    destruct (Hinv j before b Hj Hb) as [Hlink _].
    rewrite isChainValid_chain_checks. apply chain_checks_false.
    exists j, before, b'. cbn [tamper chain]. split; [|split].
    + rewrite nth_error_replace_at_other by lia. exact Hj.
    + now apply (nth_error_replace_at_same _ _ b).
    + unfold block_checks. unfold linked in Hlink. rewrite <- Hlink.
      destruct (String.eqb_spec (previousHash b') (previousHash b)) as [Heq|Hne];
        [contradiction|reflexivity].
  - intros -> Hhash. unfold isChainValid in *. cbn [tamper chain].
    destruct (chain this) as [|first rest]; [discriminate|].
    cbn in Hb. inversion Hb; subst first. cbn [replace_at].
    destruct rest as [|cur rest]; [reflexivity|].
    cbn [checks_from] in *.
    replace (block_checks b' cur) with (block_checks b cur); [exact Hvalid|].
    unfold block_checks. now rewrite Hhash.
Qed.

Lemma tampering_detected_witness :
  isChainValid (tamper mined_ledger 0 rehashed_genesis) = false.
Proof.
  refine (proj1 (tampering_detected mined_ledger 0 genesis_block rehashed_genesis _ _) _ _).
  - reflexivity.
  - reflexivity.
  - vm_compute. lia.
  - discriminate.
Defined.

(** ** The search loop, whatever the hash *)

Lemma substring_prefix_zeros (n : nat) (h : string) :
  substring 0 (Nat.min n (String.length h)) h = JS.repeat_string "0" n ->
  leading_zeros n h = true.
Proof.
  revert h. induction n as [|n IH]; intros h; [reflexivity|].
  destruct h as [|c h]; cbn [String.length Nat.min substring JS.repeat_string
                             leading_zeros String.append].
  - discriminate.
  - intros H. inversion H as [[Hc Hrest]].
    rewrite Ascii.eqb_refl. cbn [andb]. now apply IH.
Qed.

Lemma loop_test_leading_zeros (h : string) (d : Z) (zeros : string) :
  JS.String_repeat "0" d = Some zeros ->
  String.eqb (JS.String_substring h 0 d) zeros = true ->
  leading_zeros (Z.to_nat d) h = true.
Proof.
  unfold JS.String_repeat, JS.String_substring.
  destruct (d <? 0) eqn:Hneg; [discriminate|].
  intros Hz Heq. inversion Hz; subst zeros. apply String.eqb_eq in Heq.
  apply substring_prefix_zeros. rewrite <- Heq.
  f_equal; lia.
Qed.

(** X1. The counter is bumped between the hash computation and the loop
    test: when the loop ends, the counter it hands over (the nonce stored
    in the block) is one more than the nonce of the hash it hands over,
    and that hash passes the leading-zeros test. This holds whatever the
    hash function is. *)
Theorem proofOfWork_hands_over_next_nonce (hashOf : Z -> string) (fuel : nat)
    (d nonce : Z) (h : string) (n : Z) :
  proofOfWork hashOf fuel d nonce = Some (inr (h, n)) ->
  nonce < n /\ h = hashOf (n - 1) /\ leading_zeros (Z.to_nat d) h = true.
Proof.
  revert nonce. induction fuel as [|fuel IH]; intros nonce; cbn [proofOfWork];
    [discriminate|].
  destruct (JS.String_repeat "0" d) as [zeros|] eqn:Hz; [|discriminate].
  destruct (String.eqb (JS.String_substring (hashOf nonce) 0 d) zeros) eqn:Ht;
    cbn [negb].
  - intros H. inversion H; subst h n.
    replace (nonce + 1 - 1) with nonce by lia.
    repeat split; [lia|]. now apply (loop_test_leading_zeros _ _ zeros).
  - intros H. destruct (IH _ H) as (Hlt & Hh & Hzeros).
    repeat split; [lia|assumption|assumption].
Qed.

Lemma proofOfWork_hands_over_next_nonce_witness :
  proofOfWork staged_hash 10 4 0 = Some (inr ("00003", 4))
  /\ (0 < 4 /\ "00003" = staged_hash (4 - 1)
      /\ leading_zeros (Z.to_nat 4) "00003" = true).
Proof.
  split; [reflexivity|].
  apply (proofOfWork_hands_over_next_nonce staged_hash 10 4 0 "00003" 4).
  reflexivity.
Defined.

(** ** A new ledger *)

(** X2. A newly constructed ledger has one block, of index 0 and previous
    hash ["0"], an empty pool and difficulty 4, and [isChainValid()]
    answers true on it. *)
Theorem constructor_genesis (now1 now2 : Z) :
  exists genesis,
    chain (constructor now1 now2) = [genesis]
    /\ index genesis = 0
    /\ previousHash genesis = "0"
    /\ transactions genesis = []
    /\ pendingTransactions (constructor now1 now2) = []
    /\ difficulty (constructor now1 now2) = 4
    /\ getLatestBlock (constructor now1 now2) = Some genesis
    /\ isChainValid (constructor now1 now2) = true.
Proof. eexists. repeat split. Qed.

(** ** Export and import of a reachable ledger *)

Lemma chain_linked_checks (blocks : list Block) :
  chain_checks link_checks blocks = true <-> chain_linked blocks.
Proof.
  rewrite chain_checks_spec. unfold chain_linked.
  split; intros H i a b Ha Hb; apply link_checks_spec; eauto.
Qed.

Lemma chain_linked_push (blocks : list Block) (n : nat) (last new : Block) :
  chain_linked blocks ->
  List.length blocks = S n ->
  nth_error blocks n = Some last ->
  linked last new ->
  chain_linked (blocks ++ [new]).
Proof.
  intros Hinv Hlen Hlast Hlink i prev cur Hp Hc.
  destruct (Nat.lt_ge_cases (S i) (List.length blocks)) as [Hlt|Hge].
  - rewrite nth_error_app1 in Hp, Hc by lia. eauto.
  - rewrite nth_error_app2 in Hc by lia.
    destruct (S i - List.length blocks)%nat as [|k] eqn:Hk.
    + cbn in Hc. inversion Hc; subst cur.
      assert (i = n) by lia. subst i.
      rewrite nth_error_app1 in Hp by lia.
      rewrite Hlast in Hp. now inversion Hp; subst prev.
    + destruct k; discriminate.
Qed.

(** Every adjacent pair of blocks of a reachable ledger is linked. *)
Lemma reachable_linked (this : BlockchainUtils) :
  reachable this -> chain_linked (chain this).
Proof.
  induction 1 as [now1 now2|this tx now1 now2 _ IH|this fuel txs now r _ IH Hm
                 |this data _ IH _].
  - intros i prev cur _ Hc. destruct i; discriminate.
  - now rewrite addTransaction_chain.
  - destruct r as [this' b|this' e]; cbn [ledger_of].
    + destruct (mineBlock_returns _ _ _ _ _ _ Hm)
        as (n & p & Hlen & Hn & _ & Hb & ->).
      cbn [chain]. apply (chain_linked_push _ n p); auto.
      subst b. reflexivity.
    + now rewrite (mineBlock_throws _ _ _ _ _ _ Hm).
  - unfold importBlockchain.
    destruct (negb (chain_truthy (snap_chain data)) || negb (Array_isArray (snap_chain data)));
      [exact IH|].
    destruct (chain_checks link_checks (blocks_of (snap_chain data))) eqn:Hl;
      cbn [negb ledger_of chain]; [|exact IH].
    now apply chain_linked_checks.
Qed.

(** X3. Importing what a reachable ledger has just exported succeeds and
    gives the very same ledger: same chain, same latest block, same
    verdict of [isChainValid()]. *)
Theorem export_import_round_trip (this : BlockchainUtils) (now : Z) :
  reachable this ->
  importBlockchain this (exportBlockchain this now) = Ok this true.
Proof.
  intros H. apply import_export. now apply chain_linked_checks, reachable_linked.
Qed.

Lemma export_import_round_trip_witness :
  importBlockchain (constructor 1000 1000) (exportBlockchain (constructor 1000 1000) 3000)
  = Ok (constructor 1000 1000) true.
Proof.
  apply (export_import_round_trip (constructor 1000 1000) 3000).
  apply reach_constructor.
Defined.

(** ** Properties of plain objects *)

Lemma get_prop_set_prop_same (o : JS.Object) (k : string) (v : JS.Value) :
  JS.get_prop (JS.set_prop o k v) k = v.
Proof.
  induction o as [|[k' v'] o IH]; cbn.
  - now rewrite String.eqb_refl.
  - destruct (String.eqb k' k) eqn:Hk; cbn; now rewrite Hk.
Qed.

Lemma get_prop_set_prop_other (o : JS.Object) (k k' : string) (v : JS.Value) :
  k <> k' -> JS.get_prop (JS.set_prop o k v) k' = JS.get_prop o k'.
Proof.
  intros Hne. induction o as [|[k0 v0] o IH]; cbn.
  - destruct (String.eqb_spec k k'); [contradiction|reflexivity].
  - destruct (String.eqb_spec k0 k) as [->|Hk0]; cbn.
    + destruct (String.eqb_spec k k'); [contradiction|reflexivity].
    + destruct (String.eqb_spec k0 k'); [reflexivity|exact IH].
Qed.

Lemma truthy_stringifies (v : JS.Value) :
  JS.truthy v = true -> exists s, JS.JSON_stringify v = Some s.
Proof.
  destruct v as [| |b|n| |s|items|props]; cbn [JS.truthy]; try discriminate;
    intros _; cbn [JS.JSON_stringify]; try destruct b; eauto.
Qed.

Lemma plus_string_right (a : JS.Value) (s : string) :
  JS.plus a (JS.VStr s) = JS.VStr (JS.ToString (JS.ToPrimitive a) ++ s).
Proof. destruct a; reflexivity. Qed.

Lemma plus_string_left (s : string) (b : JS.Value) :
  JS.plus (JS.VStr s) b = JS.VStr (s ++ JS.ToString (JS.ToPrimitive b)).
Proof. destruct b; reflexivity. Qed.

(** Once the required fields are there, the hash is computed without
    error. *)
Lemma generateTransactionHash_valid (transaction : Transaction) (now : Z) :
  JS.truthy (JS.get_prop transaction "data") = true ->
  generateTransactionHash transaction now = inr "[object Object]".
Proof.
  intros Hd. unfold generateTransactionHash, generateTransactionHash_data.
  destruct (truthy_stringifies _ Hd) as [s ->].
  now rewrite plus_string_right, plus_string_left.
Qed.

Lemma isValidTransaction_data (this : BlockchainUtils) (transaction : Transaction) :
  isValidTransaction this transaction = true ->
  JS.truthy (JS.get_prop transaction "data") = true.
Proof.
  unfold isValidTransaction.
  destruct (JS.truthy (JS.get_prop transaction "type"));
    destruct (JS.truthy (JS.get_prop transaction "signedBy"));
    destruct (JS.truthy (JS.get_prop transaction "data")); cbn;
    try discriminate; reflexivity.
Qed.

(** ** Submission, in full *)


(** ** The three lookups *)

Lemma seals_existsb (h : JS.Value) (b : Block) :
  existsb (has_hash h) (transactions b) = true <-> seals h b.
Proof. unfold seals. apply existsb_exists. Qed.

Lemma transactionExists_known (this : BlockchainUtils) (h : JS.Value) :
  transactionExists this h = true <-> known this h.
Proof.
  unfold transactionExists, known.
  destruct (existsb (fun block => existsb (has_hash h) (transactions block))
                    (chain this)) eqn:Hc.
  - split; [|reflexivity]. intros _. left.
    apply existsb_exists in Hc. destruct Hc as (b & Hb & Hs).
    exists b. split; [assumption|]. now apply seals_existsb.
  - rewrite existsb_exists. split.
    + intros H. now right.
    + intros [(b & Hb & Hs)|H]; [|assumption].
      apply seals_existsb in Hs.
      assert (Ht : existsb (fun block => existsb (has_hash h) (transactions block))
                           (chain this) = true)
        by (apply existsb_exists; eauto).
      congruence.
Qed.

Lemma getTransactionStatus_known (this : BlockchainUtils) (h : JS.Value) :
  getTransactionStatus this h <> None <-> known this h.
Proof.
  unfold getTransactionStatus, known.
  destruct (status_in_blocks (Z.of_nat (List.length (chain this))) h (chain this))
    as [s|] eqn:Hb.
  - split; [|discriminate]. intros _. left.
    destruct (status_in_blocks_Some _ _ _ _ Hb) as (i & b & Hi & Hs & _).
    exists b. split; [now apply (nth_error_In _ i)|assumption].
  - assert (Hnone := status_in_blocks_None _ _ _ Hb).
    destruct (find (has_hash h) (pendingTransactions this)) as [p|] eqn:Hp.
    + split; [|discriminate]. intros _. right.
      apply find_some in Hp. now exists p.
    + split; [congruence|].
      intros [(b & Hin & Hs)|(tx & Hin & Htx)].
      * now destruct (Hnone b Hin).
      * rewrite (find_none _ _ Hp tx Hin) in Htx. discriminate.
Qed.

Lemma mined_events_nil (h : JS.Value) (blocks : list Block) :
  mined_events h blocks = [] <-> (forall b, In b blocks -> ~ seals h b).
Proof.
  induction blocks as [|block rest IH]; cbn [mined_events].
  - split; [intros _ b []|reflexivity].
  - destruct (find (has_hash h) (transactions block)) as [tx|] eqn:Hf.
    + split; [discriminate|]. intros H. exfalso.
      apply (H block (or_introl eq_refl)). apply seals_find. congruence.
    + rewrite IH. split.
      * intros H b [->|Hin]; [rewrite seals_find; congruence|now apply H].
      * intros H b Hin. apply H. now right.
Qed.

Lemma getTransactionHistory_known (this : BlockchainUtils) (h : JS.Value) :
  getTransactionHistory this h <> [] <-> known this h.
Proof.
  unfold getTransactionHistory, known.
  destruct (find (has_hash h) (pendingTransactions this)) as [p|] eqn:Hp.
  - split; [|discriminate]. intros _. right.
    apply find_some in Hp. now exists p.
  - split.
    + intros Hne. left.
      destruct (existsb (fun b => existsb (has_hash h) (transactions b)) (chain this))
        eqn:Hex.
      * apply existsb_exists in Hex. destruct Hex as (b & Hin & Hs).
        exists b. split; [assumption|now apply seals_existsb].
      * exfalso. apply Hne. apply mined_events_nil. intros b Hin Hs.
        apply seals_existsb in Hs.
        assert (Ht : existsb (fun b => existsb (has_hash h) (transactions b))
                             (chain this) = true)
          by (apply existsb_exists; eauto).
        congruence.
    + intros [(b & Hin & Hs)|(tx & Hin & Htx)].
      * intros Hnil. now apply (proj1 (mined_events_nil h (chain this)) Hnil b).
      * rewrite (find_none _ _ Hp tx Hin) in Htx. discriminate.
Qed.

(** X5. The three lookups agree on what the ledger knows: for every hash,
    [transactionExists] answers true exactly when [getTransactionStatus]
    answers something other than null, and exactly when
    [getTransactionHistory] answers a list that is not empty, namely when
    a sealed block or the pool holds a transaction with that hash. *)
Theorem lookups_agree (this : BlockchainUtils) (h : JS.Value) :
  (transactionExists this h = true <-> known this h)
  /\ (getTransactionStatus this h <> None <-> known this h)
  /\ (getTransactionHistory this h <> [] <-> known this h).
Proof.
  split; [apply transactionExists_known|].
  split; [apply getTransactionStatus_known|apply getTransactionHistory_known].
Qed.

(** What a call of [addTransaction] that returns has done. *)
Lemma addTransaction_returns this transaction now1 now2 this' stored :
  addTransaction this transaction now1 now2 = Ok this' stored ->
  isValidTransaction this transaction = true
  /\ this' = mkLedger (difficulty this) (pendingTransactions this ++ [stored]) (chain this)
  /\ JS.get_prop stored "hash" = JS.VStr "[object Object]"
  /\ JS.get_prop stored "blockNumber" = JS.VNull
  /\ JS.get_prop stored "timestamp" = JS.VNum now2
  /\ JS.get_prop stored "type" = JS.get_prop transaction "type"
  /\ JS.get_prop stored "signedBy" = JS.get_prop transaction "signedBy"
  /\ JS.get_prop stored "data" = JS.get_prop transaction "data".
Proof.
  unfold addTransaction.
  destruct (isValidTransaction this transaction) eqn:Hv; cbn [negb]; [|discriminate].
  rewrite (generateTransactionHash_valid _ _ (isValidTransaction_data _ _ Hv)).
  intros H. inversion H; subst. repeat split.
  - rewrite !get_prop_set_prop_other by discriminate. apply get_prop_set_prop_same.
  - apply get_prop_set_prop_same.
  - rewrite get_prop_set_prop_other by discriminate. apply get_prop_set_prop_same.
  - now rewrite !get_prop_set_prop_other by discriminate.
  - now rewrite !get_prop_set_prop_other by discriminate.
  - now rewrite !get_prop_set_prop_other by discriminate.
Qed.

(** X6. The object a successful [addTransaction] returns is known to the
    ledger it leaves: [transactionExists], [getTransactionStatus] and
    [getTransactionHistory] find its hash, and submitting that same object
    once more, at any later instant, is rejected as invalid and leaves the
    ledger alone. *)
Theorem returned_transaction_known (this : BlockchainUtils) (transaction : Transaction)
    (now1 now2 : Z) (this' : BlockchainUtils) (stored : Transaction) :
  addTransaction this transaction now1 now2 = Ok this' stored ->
  transactionExists this' (JS.get_prop stored "hash") = true
  /\ getTransactionStatus this' (JS.get_prop stored "hash") <> None
  /\ getTransactionHistory this' (JS.get_prop stored "hash") <> []
  /\ (forall later1 later2,
         addTransaction this' stored later1 later2 = Throw this' InvalidTransaction).
Proof.
  intros H.
  destruct (addTransaction_returns _ _ _ _ _ _ H) as (_ & -> & Hh & _).
  assert (Hk : known (mkLedger (difficulty this) (pendingTransactions this ++ [stored])
                               (chain this)) (JS.get_prop stored "hash")).
  { right. exists stored. cbn [pendingTransactions]. split.
    - apply in_or_app. right. now left.
    - unfold has_hash. rewrite Hh. reflexivity. }
  assert (He := proj2 (transactionExists_known _ _) Hk).
  split; [exact He|].
  split; [now apply getTransactionStatus_known|].
  split; [now apply getTransactionHistory_known|].
  intros later1 later2. unfold addTransaction, isValidTransaction.
  rewrite He.
  destruct (negb (JS.truthy (JS.get_prop stored "type"))
            || negb (JS.truthy (JS.get_prop stored "signedBy"))
            || negb (JS.truthy (JS.get_prop stored "data")));
    reflexivity.
Qed.

Lemma returned_transaction_known_witness :
  exists this' stored,
    addTransaction (constructor 1000 1000) sample_transaction 1500 1500 = Ok this' stored
    /\ transactionExists this' (JS.get_prop stored "hash") = true
    /\ getTransactionStatus this' (JS.get_prop stored "hash") <> None
    /\ getTransactionHistory this' (JS.get_prop stored "hash") <> []
    /\ (forall later1 later2,
           addTransaction this' stored later1 later2 = Throw this' InvalidTransaction).
Proof.
  do 2 eexists. split; [reflexivity|].
  apply (returned_transaction_known (constructor 1000 1000) sample_transaction 1500 1500).
  reflexivity.
Defined.

(** ** History *)

Lemma mined_events_first (h : JS.Value) (blocks : list Block) :
  (mined_events h blocks = [] /\ forall b, In b blocks -> ~ seals h b)
  \/ (exists i b,
         nth_error blocks i = Some b
         /\ seals h b
         /\ (forall j b', (j < i)%nat -> nth_error blocks j = Some b' -> ~ seals h b')
         /\ mined_events h blocks
            = [Mined (index b) (timestamp b) (hash b) (nonce b) (previousHash b)]).
Proof.
  induction blocks as [|block rest IH]; cbn [mined_events].
  - left. split; [reflexivity|intros b []].
  - destruct (find (has_hash h) (transactions block)) as [tx|] eqn:Hf.
    + right. exists 0%nat, block. repeat split.
      * apply seals_find. congruence.
      * intros j b' Hj. lia.
    + assert (Hblock : ~ seals h block) by (rewrite seals_find; congruence).
      destruct IH as [[Hnil Hnone]|(i & b & Hi & Hs & Hbefore & Hev)].
      * left. split; [assumption|]. intros b [<-|Hin]; auto.
      * right. exists (S i), b. repeat split; auto.
        intros j b' Hj Hb'. destruct j as [|j].
        -- cbn in Hb'. now inversion Hb'; subst b'.
        -- apply (Hbefore j b'); [lia|assumption].
Qed.

(** X7. [getTransactionHistory(h)] is the 'created' part followed by the
    'mined' part. The 'created' part is one event, with the timestamp,
    type and signer of the first pool entry whose hash is [h], and is
    empty when the pool has none. The 'mined' part is one event, with the
    index, timestamp, hash, nonce and previous hash of the first block
    that seals [h], and is empty when no block does. So the history has at
    most two events, and a transaction that is in the pool and in a block
    has both. *)
Theorem getTransactionHistory_shape (this : BlockchainUtils) (h : JS.Value) :
  exists created mined : list HistoryEvent,
    getTransactionHistory this h = (created ++ mined)%list
    /\ ((created = []
         /\ forall tx, In tx (pendingTransactions this) -> has_hash h tx = false)
        \/ (exists i pendingTx,
               nth_error (pendingTransactions this) i = Some pendingTx
               /\ has_hash h pendingTx = true
               /\ (forall j tx, (j < i)%nat ->
                                nth_error (pendingTransactions this) j = Some tx ->
                                has_hash h tx = false)
               /\ created = [Created (JS.get_prop pendingTx "timestamp")
                                     (JS.get_prop pendingTx "type")
                                     (JS.get_prop pendingTx "signedBy")]))
    /\ ((mined = [] /\ forall b, In b (chain this) -> ~ seals h b)
        \/ (exists i b,
               nth_error (chain this) i = Some b
               /\ seals h b
               /\ (forall j b', (j < i)%nat -> nth_error (chain this) j = Some b' ->
                                ~ seals h b')
               /\ mined = [Mined (index b) (timestamp b) (hash b) (nonce b)
                                 (previousHash b)])).
Proof.
  unfold getTransactionHistory.
  destruct (find (has_hash h) (pendingTransactions this)) as [p|] eqn:Hp.
  - exists [Created (JS.get_prop p "timestamp") (JS.get_prop p "type")
                    (JS.get_prop p "signedBy")],
           (mined_events h (chain this)).
    split; [reflexivity|]. split.
    + right. destruct (find_first _ _ _ Hp) as (i & Hi & Hh & Hbefore).
      exists i, p. auto.
    + destruct (mined_events_first h (chain this)) as [[Hnil Hnone]|Hsome].
      * left. auto.
      * right. exact Hsome.
  - exists [], (mined_events h (chain this)).
    split; [reflexivity|]. split.
    + left. split; [reflexivity|]. intros tx Hin. apply (find_none _ _ Hp tx Hin).
    + destruct (mined_events_first h (chain this)) as [[Hnil Hnone]|Hsome].
      * left. auto.
      * right. exact Hsome.
Qed.

(** ** Mining from a reachable ledger *)

Lemma importBlockchain_difficulty this data :
  difficulty this <> 0 -> difficulty (ledger_of (importBlockchain this data)) <> 0.
Proof.
  intros Hd. unfold importBlockchain.
  destruct (negb (chain_truthy (snap_chain data)) || negb (Array_isArray (snap_chain data)));
    [exact Hd|].
  destruct (negb (chain_checks link_checks (blocks_of (snap_chain data))));
    [exact Hd|].
  cbn [ledger_of difficulty].
  destruct (snap_difficulty data) as [d|]; [|exact Hd].
  destruct (d =? 0) eqn:Hz; [exact Hd|zlia].
Qed.

Lemma addTransaction_difficulty this transaction now1 now2 :
  difficulty (ledger_of (addTransaction this transaction now1 now2)) = difficulty this.
Proof.
  unfold addTransaction.
  destruct (negb (isValidTransaction this transaction)); [reflexivity|].
  destruct (generateTransactionHash transaction now1); reflexivity.
Qed.

Lemma mineBlock_difficulty fuel this transactions now r :
  mineBlock fuel this transactions now = Some r ->
  difficulty (ledger_of r) = difficulty this.
Proof.
  intros H. destruct r as [this' b|this' e]; cbn [ledger_of].
  - now destruct (mineBlock_returns _ _ _ _ _ _ H) as (n & p & _ & _ & _ & _ & ->).
  - now rewrite (mineBlock_throws _ _ _ _ _ _ H).
Qed.

(** No method sets the difficulty to 0: a snapshot's 0 is falsy and keeps
    the current value. *)
Lemma reachable_difficulty allowed (this : BlockchainUtils) :
  reachable_with allowed this -> difficulty this <> 0.
Proof.
  induction 1 as [now1 now2|this tx now1 now2 _ IH|this fuel txs now r _ IH Hm
                 |this data _ IH _].
  - discriminate.
  - now rewrite addTransaction_difficulty.
  - now rewrite (mineBlock_difficulty _ _ _ _ _ Hm).
  - now apply importBlockchain_difficulty.
Qed.



(** ** Ledgers that never imported *)

Lemma reachable_without_import_invariant (this : BlockchainUtils) :
  reachable_without_import this ->
  List.length (chain this) = 1%nat
  /\ Forall pooled_shape (pendingTransactions this).
Proof.
  induction 1 as [now1 now2|this tx now1 now2 Hr [IHc IHp]|this fuel txs now r Hr [IHc IHp] Hm
                 |this data _ _ []].
  - split; [reflexivity|constructor].
  - destruct (addTransaction this tx now1 now2) as [this' stored|this' e] eqn:Ha;
      cbn [ledger_of].
    + destruct (addTransaction_returns _ _ _ _ _ _ Ha) as (_ & -> & Hh & Hb & Ht & _).
      cbn [chain pendingTransactions]. split; [assumption|].
      apply Forall_app. split; [assumption|].
      constructor; [|constructor]. unfold pooled_shape. eauto.
    + unfold addTransaction in Ha.
      destruct (negb (isValidTransaction this tx)); [now inversion Ha; subst|].
      destruct (generateTransactionHash tx now1); inversion Ha; subst. auto.
  - destruct r as [this' b|this' e]; cbn [ledger_of].
    + destruct (mineBlock_returns _ _ _ _ _ _ Hm) as (_ & _ & _ & _ & Hz & _).
      now destruct (reachable_difficulty _ _ Hr).
    + rewrite (mineBlock_throws _ _ _ _ _ _ Hm). auto.
Qed.

(** X9. A ledger that was constructed and then only submitted to and mined
    on (no import) still has its genesis block as its only block, however
    many calls were made; and every entry of its pool has the hash
    ["[object Object]"], a null [blockNumber] and a numeric
    [timestamp]. *)
Theorem ledger_never_seals (this : BlockchainUtils) :
  reachable_without_import this ->
  (exists genesis, chain this = [genesis] /\ index genesis = 0
                   /\ transactions genesis = [])
  /\ (forall tx, In tx (pendingTransactions this) -> pooled_shape tx)
  /\ isChainValid this = true.
Proof.
  intros Hr.
  assert (Hg : exists genesis, chain this = [genesis] /\ index genesis = 0
                               /\ transactions genesis = []).
  { induction Hr as [now1 now2|this tx now1 now2 Hr IH|this fuel txs now r Hr IH Hm
                    |this data _ _ []].
    - eexists. repeat split.
    - now rewrite addTransaction_chain.
    - destruct r as [this' b|this' e]; cbn [ledger_of].
      + destruct (mineBlock_returns _ _ _ _ _ _ Hm) as (_ & _ & _ & _ & Hz & _).
        now destruct (reachable_difficulty _ _ Hr).
      + now rewrite (mineBlock_throws _ _ _ _ _ _ Hm). }
  destruct (reachable_without_import_invariant _ Hr) as [_ Hp].
  split; [exact Hg|]. split.
  - intros tx Hin. now apply (proj1 (Forall_forall _ _) Hp).
  - destruct Hg as (g & Hc & _). unfold isChainValid. now rewrite Hc.
Qed.

Lemma ledger_never_seals_witness :
  (exists genesis,
      chain (ledger_of (addTransaction (constructor 1000 1000) sample_transaction 1500 1500))
      = [genesis] /\ index genesis = 0 /\ transactions genesis = [])
  /\ (forall tx,
         In tx (pendingTransactions
                  (ledger_of (addTransaction (constructor 1000 1000)
                                             sample_transaction 1500 1500))) ->
         pooled_shape tx)
  /\ isChainValid (ledger_of (addTransaction (constructor 1000 1000)
                                             sample_transaction 1500 1500)) = true.
Proof.
  apply (ledger_never_seals
           (ledger_of (addTransaction (constructor 1000 1000) sample_transaction 1500 1500))).
  apply reach_addTransaction, reach_constructor.
Defined.

(** ** Statistics *)

Lemma fold_sum_shift (f : Block -> Z) (blocks : list Block) (a : Z) :
  fold_left (fun total block => total + f block) blocks a
  = a + reduce_sum f blocks.
Proof.
  unfold reduce_sum. revert a.
  induction blocks as [|b blocks IH]; intros a; cbn [fold_left]; [lia|].
  rewrite (IH (a + f b)), (IH (0 + f b)). lia.
Qed.

Lemma reduce_sum_cons (f : Block -> Z) (b : Block) (blocks : list Block) :
  reduce_sum f (b :: blocks) = f b + reduce_sum f blocks.
Proof.
  unfold reduce_sum at 1. cbn [fold_left]. rewrite fold_sum_shift. lia.
Qed.

Lemma reduce_sum_app (f : Block -> Z) (blocks more : list Block) :
  reduce_sum f (blocks ++ more) = reduce_sum f blocks + reduce_sum f more.
Proof.
  induction blocks as [|b blocks IH]; [reflexivity|].
  cbn [app]. rewrite !reduce_sum_cons, IH. lia.
Qed.

(** The total is the number of transactions over all blocks. *)
Lemma reduce_sum_transactions (blocks : list Block) :
  reduce_sum (fun block => Z.of_nat (List.length (transactions block))) blocks
  = Z.of_nat (List.length (flat_map transactions blocks)).
Proof.
  induction blocks as [|b blocks IH]; [reflexivity|].
  rewrite reduce_sum_cons, IH. cbn [flat_map]. rewrite length_app. lia.
Qed.



(** X10. [getBlockchainStats()] throws a [TypeError] exactly when the
    chain is empty, and leaves the ledger alone. Otherwise it returns:
    [totalBlocks], the length of the chain, at least 1;
    [pendingTransactions], the size of the pool; [totalTransactions], the
    number of transactions over all blocks; the hash and timestamp of the
    latest block; and as [chainIntegrity] the answer of
    [isChainValid()]. *)
Theorem getBlockchainStats_outcomes (this : BlockchainUtils) :
  (chain this = [] /\ getBlockchainStats this = Throw this TypeError)
  \/ (exists latest stats,
         getLatestBlock this = Some latest
         /\ getBlockchainStats this = Ok this stats
         /\ Stats.totalBlocks stats = Z.of_nat (List.length (chain this))
         /\ 1 <= Stats.totalBlocks stats
         /\ Stats.pendingTransactions stats
            = Z.of_nat (List.length (pendingTransactions this))
         /\ Stats.totalTransactions stats
            = Z.of_nat (List.length (flat_map transactions (chain this)))
         /\ Stats.lastBlockHash stats = hash latest
         /\ Stats.lastBlockTimestamp stats = timestamp latest
         /\ Stats.chainIntegrity stats = isChainValid this).
Proof.
  unfold getBlockchainStats.
  destruct (getLatestBlock this) as [latest|] eqn:Hl.
  - right. destruct (getLatestBlock_Some _ _ Hl) as (n & Hlen & _).
    do 2 eexists. split; [reflexivity|]. split; [reflexivity|].
    cbn. rewrite reduce_sum_transactions. repeat split; lia.
  - left. split; [now apply getLatestBlock_None|reflexivity].
Qed.



Lemma addTransaction_pool_length this transaction now1 now2 this' stored :
  addTransaction this transaction now1 now2 = Ok this' stored ->
  List.length (pendingTransactions this') = S (List.length (pendingTransactions this)).
Proof.
  intros H. destruct (addTransaction_returns _ _ _ _ _ _ H) as (_ & -> & _).
  cbn [pendingTransactions]. rewrite length_app. cbn. lia.
Qed.



(** ** The health routes *)

(** X13. [GET /api/health/ready] answers 200 'ready' exactly when the
    database is connected ([readyState] 1), the chain is not empty and
    [isChainValid()] is true. Otherwise it answers 503: 'database not
    connected' whenever [readyState] is not 1, whatever the ledger; with
    the database connected, 'blockchain not operational' with a
    [TypeError] exactly when the chain is empty, and 'blockchain
    corrupted' exactly when the chain is not empty and [isChainValid()]
    is false. *)
Theorem ready_answers (readyState : Z) (this : BlockchainUtils) :
  (ready readyState this = (200, ServiceReady) <->
     readyState = 1 /\ chain this <> [] /\ isChainValid this = true)
  /\ (ready readyState this = (503, DatabaseNotConnected) <-> readyState <> 1)
  /\ (ready readyState this = (503, BlockchainNotOperational TypeError) <->
        readyState = 1 /\ chain this = [])
  /\ (ready readyState this = (503, BlockchainCorrupted) <->
        readyState = 1 /\ chain this <> [] /\ isChainValid this = false).
Proof.
  unfold ready, getBlockchainStats.
  destruct (readyState =? 1) eqn:Hr; cbn [negb].
  - assert (Hrs : readyState = 1) by zlia.
    destruct (getLatestBlock this) as [latest|] eqn:Hl.
    + assert (Hne : chain this <> []).
      { intros Hnil. apply getLatestBlock_None in Hnil. congruence. }
      cbn [Stats.chainIntegrity].
      destruct (isChainValid this) eqn:Hv; cbn [negb];
        intuition (congruence || discriminate).
    + assert (Hnil : chain this = []) by now apply getLatestBlock_None.
      intuition (congruence || discriminate).
  - assert (Hrs : readyState <> 1) by zlia.
    intuition (congruence || discriminate).
Qed.

Lemma health_nonempty (readyState : Z) (this : BlockchainUtils) :
  chain this <> [] ->
  health readyState this
  = (200, (if readyState =? 1 then "healthy" else "degraded"),
     Operational (Z.of_nat (List.length (chain this)))
                 (Z.of_nat (List.length (flat_map transactions (chain this))))
                 (Z.of_nat (List.length (pendingTransactions this)))
                 (isChainValid this)).
Proof.
  intros Hne. unfold health, getBlockchainStats.
  destruct (getLatestBlock this) as [latest|] eqn:Hl.
  - cbn. rewrite reduce_sum_transactions.
    destruct (readyState =? 1); reflexivity.
  - apply getLatestBlock_None in Hl. contradiction.
Qed.

(** X14. [GET /api/health] turns to 503 'unhealthy' exactly when the chain
    is empty, [getBlockchainStats] then throwing a [TypeError]. On any
    other ledger it answers 200, 'healthy' with the database connected and
    'degraded' without, and the blockchain section is marked operational
    with the counts and the integrity flag, also when that flag is
    false. *)
Theorem health_answers (readyState : Z) (this : BlockchainUtils) :
  (chain this = []
   /\ health readyState this = (503, "unhealthy", HealthError TypeError))
  \/ (chain this <> []
      /\ health readyState this
         = (200, (if readyState =? 1 then "healthy" else "degraded"),
            Operational (Z.of_nat (List.length (chain this)))
                        (Z.of_nat (List.length (flat_map transactions (chain this))))
                        (Z.of_nat (List.length (pendingTransactions this)))
                        (isChainValid this))).
Proof.
  unfold health, getBlockchainStats.
  destruct (getLatestBlock this) as [latest|] eqn:Hl.
  - right.
    assert (Hne : chain this <> []).
    { intros Hnil. apply getLatestBlock_None in Hnil. congruence. }
    split; [exact Hne|].
    rewrite <- (health_nonempty readyState this Hne).
    unfold health, getBlockchainStats. now rewrite Hl.
  - left. split; [now apply getLatestBlock_None|].
    destruct (readyState =? 1); reflexivity.
Qed.

(** X15. As long as nothing was imported, the ledger never makes the
    probes fail: with the database connected [/ready] answers 200
    'ready', and [/] answers 200 whatever the database state. *)
Theorem probes_without_import (readyState : Z) (this : BlockchainUtils) :
  reachable_without_import this ->
  ready 1 this = (200, ServiceReady)
  /\ fst (fst (health readyState this)) = 200.
Proof.
  intros Hr.
  destruct (reachable_without_import_invariant _ Hr) as [Hlen _].
  assert (Hv : isChainValid this = true).
  { unfold isChainValid. destruct (chain this) as [|g [|b rest]]; try discriminate.
    reflexivity. }
  assert (Hne : chain this <> []) by (intros Hnil; rewrite Hnil in Hlen; discriminate).
  split.
  - unfold ready, getBlockchainStats. cbn [Z.eqb negb Pos.eqb].
    destruct (getLatestBlock this) as [latest|] eqn:Hl.
    + cbn [Stats.chainIntegrity]. now rewrite Hv.
    + apply getLatestBlock_None in Hl. contradiction.
  - now rewrite (health_nonempty readyState this Hne).
Qed.

Lemma probes_without_import_witness :
  ready 1 (constructor 1000 1000) = (200, ServiceReady)
  /\ fst (fst (health 0 (constructor 1000 1000))) = 200.
Proof.
  apply (probes_without_import 0 (constructor 1000 1000)).
  apply reach_constructor.
Defined.

(** ** Cleanup of the pool *)

Lemma filter_twice {A : Type} (f : A -> bool) (l : list A) :
  filter f (filter f l) = filter f l.
Proof.
  induction l as [|x l IH]; [reflexivity|]. cbn [filter].
  destruct (f x) eqn:Hx; [|exact IH]. cbn [filter]. now rewrite Hx, IH.
Qed.

Lemma filter_shorter {A : Type} (f : A -> bool) (l : list A) :
  (List.length (filter f l) <= List.length l)%nat.
Proof.
  induction l as [|x l IH]; [apply le_n|]. cbn [filter].
  destruct (f x); cbn [List.length]; lia.
Qed.

Lemma getTransactionStatus_confirmed (this : BlockchainUtils) (h : JS.Value)
    (s : TransactionStatus) :
  getTransactionStatus this h = Some s ->
  status s = "confirmed" ->
  status_in_blocks (Z.of_nat (List.length (chain this))) h (chain this) = Some s.
Proof.
  unfold getTransactionStatus.
  destruct (status_in_blocks (Z.of_nat (List.length (chain this))) h (chain this))
    as [s'|]; [now intros H _|].
  destruct (find (has_hash h) (pendingTransactions this)); [|discriminate].
  intros H Hs. inversion H; subst s. discriminate.
Qed.

(** X16. [cleanupOldPendingTransactions] touches the pool only: the chain,
    the difficulty and the answer of [isChainValid()] are as before, and
    so is every 'confirmed' status. The entries left are entries of the old
    pool; the number returned is the number of entries removed, between 0
    and the size of the pool; and a second call with the same age at the
    same instant removes nothing and returns 0. This holds however the
    runtime compares a string timestamp with a number. *)
Theorem cleanup_effect (string_exceeds : string -> Z -> bool) (this : BlockchainUtils)
    (maxAgeInHours : option Z) (now : Z) :
  let this' := fst (cleanupOldPendingTransactions string_exceeds this maxAgeInHours now) in
  let removedCount :=
    snd (cleanupOldPendingTransactions string_exceeds this maxAgeInHours now) in
  chain this' = chain this
  /\ difficulty this' = difficulty this
  /\ isChainValid this' = isChainValid this
  /\ (forall tx, In tx (pendingTransactions this') -> In tx (pendingTransactions this))
  /\ removedCount = Z.of_nat (List.length (pendingTransactions this))
                    - Z.of_nat (List.length (pendingTransactions this'))
  /\ 0 <= removedCount <= Z.of_nat (List.length (pendingTransactions this))
  /\ cleanupOldPendingTransactions string_exceeds this' maxAgeInHours now = (this', 0)
  /\ (forall h s, getTransactionStatus this h = Some s -> status s = "confirmed" ->
                  getTransactionStatus this' h = Some s).
Proof.
  cbv zeta. unfold cleanupOldPendingTransactions.
  cbn [fst snd chain difficulty pendingTransactions].
  match goal with
  | |- context [filter ?keep (pendingTransactions this)] =>
      assert (Hlen := filter_shorter keep (pendingTransactions this))
  end.
  split; [reflexivity|]. split; [reflexivity|]. split; [reflexivity|].
  split; [intros tx Hin; now apply filter_In in Hin|].
  assert (Hbound : forall a b : nat,
             (b <= a)%nat -> 0 <= Z.of_nat a - Z.of_nat b <= Z.of_nat a)
    by (intros; lia).
  split; [reflexivity|]. split; [apply Hbound, Hlen|]. split.
  - rewrite filter_twice. now rewrite Z.sub_diag.
  - intros h s Hs Hc.
    assert (Hb := getTransactionStatus_confirmed _ _ _ Hs Hc).
    unfold getTransactionStatus. cbn [chain]. now rewrite Hb.
Qed.

(** X17. Submission then cleanup: a transaction that [addTransaction] has
    just accepted, its [timestamp] being the second clock reading [now2],
    survives a cleanup run at instant [now] with a maximal age of [h]
    hours exactly when [now - h * 3600000 < now2]. The comparison is
    strict: a cleanup with age 0 in the same millisecond removes it. *)
Theorem cleanup_after_addTransaction (string_exceeds : string -> Z -> bool)
    (this : BlockchainUtils) (transaction : Transaction) (now1 now2 : Z)
    (this' : BlockchainUtils) (stored : Transaction) (h now : Z) :
  addTransaction this transaction now1 now2 = Ok this' stored ->
  (In stored (pendingTransactions
                (fst (cleanupOldPendingTransactions string_exceeds this' (Some h) now)))
   <-> now - h * 3600000 < now2).
Proof.
  intros Ha.
  destruct (addTransaction_returns _ _ _ _ _ _ Ha) as (_ & -> & _ & _ & Ht & _).
  unfold cleanupOldPendingTransactions. cbn [fst pendingTransactions].
  rewrite filter_In. unfold exceeds. rewrite Ht. cbn [JS.ToPrimitive].
  replace (now - h * 60 * 60 * 1000) with (now - h * 3600000) by lia.
  split.
  - intros [_ Hlt]. zlia.
  - intros Hlt. split.
    + apply in_or_app. right. now left.
    + apply Z.ltb_lt. exact Hlt.
Qed.

Lemma cleanup_after_addTransaction_witness :
  exists this' stored,
    addTransaction (constructor 1000 1000) sample_transaction 1500 1500 = Ok this' stored
    /\ (In stored (pendingTransactions
                     (fst (cleanupOldPendingTransactions (fun _ _ => false) this'
                                                         (Some 0) 1500)))
        <-> 1500 - 0 * 3600000 < 1500).
Proof.
  do 2 eexists. split; [reflexivity|].
  apply (cleanup_after_addTransaction (fun _ _ => false) (constructor 1000 1000)
           sample_transaction 1500 1500).
  reflexivity.
Defined.

(** ** The [create...] methods *)

Lemma addTransaction_valid this transaction now1 now2 :
  isValidTransaction this transaction = true ->
  addTransaction this transaction now1 now2
  = Ok (mkLedger (difficulty this)
                 (pendingTransactions this
                    ++ [JS.set_prop
                          (JS.set_prop
                             (JS.set_prop transaction "hash" (JS.VStr "[object Object]"))
                             "timestamp" (JS.VNum now2))
                          "blockNumber" JS.VNull])
                 (chain this))
       (JS.set_prop
          (JS.set_prop
             (JS.set_prop transaction "hash" (JS.VStr "[object Object]"))
             "timestamp" (JS.VNum now2))
          "blockNumber" JS.VNull).
Proof.
  intros Hv. unfold addTransaction. rewrite Hv. cbn [negb].
  now rewrite (generateTransactionHash_valid _ _ (isValidTransaction_data _ _ Hv)).
Qed.

Lemma addTransaction_invalid this transaction now1 now2 :
  isValidTransaction this transaction = false ->
  addTransaction this transaction now1 now2 = Throw this InvalidTransaction.
Proof. intros Hv. unfold addTransaction. now rewrite Hv. Qed.

(** On a ledger that never imported, an object without [hash] is valid as
    soon as its three required fields are truthy: the duplicate test finds
    nothing. *)
Lemma isValidTransaction_unhashed (this : BlockchainUtils) (transaction : Transaction) :
  reachable_without_import this ->
  JS.get_prop transaction "hash" = JS.VUndefined ->
  isValidTransaction this transaction
  = JS.truthy (JS.get_prop transaction "type")
    && JS.truthy (JS.get_prop transaction "signedBy")
    && JS.truthy (JS.get_prop transaction "data").
Proof.
  intros Hr Hh.
  destruct (reachable_without_import_invariant _ Hr) as [Hlen Hpool].
  assert (Hex : transactionExists this JS.VUndefined = false).
  { apply transactionExists_undefined.
    - assert (Hg : exists g, chain this = [g] /\ transactions g = []).
      { clear Hlen Hpool.
        induction Hr as [now1 now2|this tx now1 now2 Hr IH|this fuel txs now r Hr IH Hm
                        |this data _ _ []].
        - eexists. split; reflexivity.
        - now rewrite addTransaction_chain.
        - destruct r as [this' b|this' e]; cbn [ledger_of].
          + destruct (mineBlock_returns _ _ _ _ _ _ Hm) as (_ & _ & _ & _ & Hz & _).
            now destruct (reachable_difficulty _ _ Hr).
          + now rewrite (mineBlock_throws _ _ _ _ _ _ Hm). }
      destruct Hg as (g & Hc & Hg). rewrite Hc.
      intros b tx [<-|[]] Hin. rewrite Hg in Hin. destruct Hin.
    - intros tx Hin.
      destruct (proj1 (Forall_forall _ _) Hpool tx Hin) as (Hhash & _).
      rewrite Hhash. discriminate. }
  unfold isValidTransaction. rewrite Hh, Hex. unfold verifySignature.
  destruct (JS.truthy (JS.get_prop transaction "type"));
    destruct (JS.truthy (JS.get_prop transaction "signedBy"));
    destruct (JS.truthy (JS.get_prop transaction "data")); reflexivity.
Qed.

(** X18. On a ledger that never imported, the three [create...] methods
    accept a transaction exactly when its signer and data (and, for an
    administrative one, its type) are truthy, and throw the
    invalid-transaction error otherwise. An accepted transaction is
    appended to the pool with the type of its kind, the identifiers and
    the action handed in, status 'pending', hash ["[object Object]"], a
    null block number, and as timestamp the last clock reading, which
    replaces the one taken at creation. *)
Theorem create_outcomes (this : BlockchainUtils) (id : string)
    (type evaluationId projectId action data signedBy metadata : JS.Value)
    (now0 now1 now2 : Z) :
  reachable_without_import this ->
  creates this
    (createAdminTransaction this id type data signedBy metadata now0 now1 now2)
    (JS.truthy type && JS.truthy signedBy && JS.truthy data)
    [ ("id", JS.VStr id); ("type", type); ("data", data); ("signedBy", signedBy);
      ("metadata", default_metadata metadata); ("status", JS.VStr "pending");
      ("hash", JS.VStr "[object Object]"); ("timestamp", JS.VNum now2);
      ("blockNumber", JS.VNull) ]
  /\ creates this
       (createProjectTransaction this id projectId action data signedBy metadata
                                 now0 now1 now2)
       (JS.truthy signedBy && JS.truthy data)
       [ ("id", JS.VStr id); ("type", JS.VStr "project_action");
         ("projectId", projectId); ("action", action); ("data", data);
         ("signedBy", signedBy); ("metadata", default_metadata metadata);
         ("status", JS.VStr "pending"); ("hash", JS.VStr "[object Object]");
         ("timestamp", JS.VNum now2); ("blockNumber", JS.VNull) ]
  /\ creates this
       (createEvaluationTransaction this id evaluationId projectId action data signedBy
                                    metadata now0 now1 now2)
       (JS.truthy signedBy && JS.truthy data)
       [ ("id", JS.VStr id); ("type", JS.VStr "evaluation_action");
         ("evaluationId", evaluationId); ("projectId", projectId);
         ("action", action); ("data", data); ("signedBy", signedBy);
         ("metadata", default_metadata metadata); ("status", JS.VStr "pending");
         ("hash", JS.VStr "[object Object]"); ("timestamp", JS.VNum now2);
         ("blockNumber", JS.VNull) ].
Proof.
  intros Hr. unfold creates.
  split; [|split].
  - unfold createAdminTransaction.
    match goal with
    | |- context [addTransaction this ?tx now1 now2] =>
        assert (Hv := isValidTransaction_unhashed this tx Hr eq_refl);
        cbn [JS.get_prop String.eqb Ascii.eqb Bool.eqb] in Hv
    end.
    destruct (JS.truthy type && JS.truthy signedBy && JS.truthy data).
    + rewrite (addTransaction_valid _ _ _ _ Hv).
      eexists. split; [reflexivity|]. repeat constructor.
    + now rewrite (addTransaction_invalid _ _ _ _ Hv).
  - unfold createProjectTransaction.
    match goal with
    | |- context [addTransaction this ?tx now1 now2] =>
        assert (Hv := isValidTransaction_unhashed this tx Hr eq_refl);
        cbn [JS.get_prop String.eqb Ascii.eqb Bool.eqb JS.truthy negb andb] in Hv
    end.
    destruct (JS.truthy signedBy && JS.truthy data).
    + rewrite (addTransaction_valid _ _ _ _ Hv).
      eexists. split; [reflexivity|]. repeat constructor.
    + now rewrite (addTransaction_invalid _ _ _ _ Hv).
  - unfold createEvaluationTransaction.
    match goal with
    | |- context [addTransaction this ?tx now1 now2] =>
        assert (Hv := isValidTransaction_unhashed this tx Hr eq_refl);
        cbn [JS.get_prop String.eqb Ascii.eqb Bool.eqb JS.truthy negb andb] in Hv
    end.
    destruct (JS.truthy signedBy && JS.truthy data).
    + rewrite (addTransaction_valid _ _ _ _ Hv).
      eexists. split; [reflexivity|]. repeat constructor.
    + now rewrite (addTransaction_invalid _ _ _ _ Hv).
Qed.

Lemma create_outcomes_witness :
  creates (constructor 1000 1000)
    (createAdminTransaction (constructor 1000 1000) "id-1" (JS.VStr "audit")
       (JS.VObj [("amount", JS.VNum 100)]) (JS.VStr "user1") JS.VUndefined 1400 1500 1500)
    (JS.truthy (JS.VStr "audit") && JS.truthy (JS.VStr "user1")
     && JS.truthy (JS.VObj [("amount", JS.VNum 100)]))
    [ ("id", JS.VStr "id-1"); ("type", JS.VStr "audit");
      ("data", JS.VObj [("amount", JS.VNum 100)]); ("signedBy", JS.VStr "user1");
      ("metadata", default_metadata JS.VUndefined); ("status", JS.VStr "pending");
      ("hash", JS.VStr "[object Object]"); ("timestamp", JS.VNum 1500);
      ("blockNumber", JS.VNull) ]
  /\ creates (constructor 1000 1000)
       (createProjectTransaction (constructor 1000 1000) "id-1" (JS.VStr "p1")
          (JS.VStr "created") (JS.VObj [("amount", JS.VNum 100)]) (JS.VStr "user1")
          JS.VUndefined 1400 1500 1500)
       (JS.truthy (JS.VStr "user1") && JS.truthy (JS.VObj [("amount", JS.VNum 100)]))
       [ ("id", JS.VStr "id-1"); ("type", JS.VStr "project_action");
         ("projectId", JS.VStr "p1"); ("action", JS.VStr "created");
         ("data", JS.VObj [("amount", JS.VNum 100)]);
         ("signedBy", JS.VStr "user1"); ("metadata", default_metadata JS.VUndefined);
         ("status", JS.VStr "pending"); ("hash", JS.VStr "[object Object]");
         ("timestamp", JS.VNum 1500); ("blockNumber", JS.VNull) ]
  /\ creates (constructor 1000 1000)
       (createEvaluationTransaction (constructor 1000 1000) "id-1" (JS.VStr "e1")
          (JS.VStr "p1") (JS.VStr "created") (JS.VObj [("amount", JS.VNum 100)])
          (JS.VStr "user1") JS.VUndefined 1400 1500 1500)
       (JS.truthy (JS.VStr "user1") && JS.truthy (JS.VObj [("amount", JS.VNum 100)]))
       [ ("id", JS.VStr "id-1"); ("type", JS.VStr "evaluation_action");
         ("evaluationId", JS.VStr "e1"); ("projectId", JS.VStr "p1");
         ("action", JS.VStr "created"); ("data", JS.VObj [("amount", JS.VNum 100)]);
         ("signedBy", JS.VStr "user1"); ("metadata", default_metadata JS.VUndefined);
         ("status", JS.VStr "pending"); ("hash", JS.VStr "[object Object]");
         ("timestamp", JS.VNum 1500); ("blockNumber", JS.VNull) ].
Proof.
  apply (create_outcomes (constructor 1000 1000) "id-1" (JS.VStr "audit") (JS.VStr "e1")
           (JS.VStr "p1") (JS.VStr "created") (JS.VObj [("amount", JS.VNum 100)])
           (JS.VStr "user1") JS.VUndefined 1400 1500 1500).
  apply reach_constructor.
Defined.

(** ** The outcomes of mining *)

(** X19. What a call of [mineBlock] does is decided by the chain and the
    difficulty alone. On an empty chain it throws a [TypeError] at once.
    On any other chain: with a negative difficulty it throws a
    [RangeError] after the first hash; with difficulty 0 it returns after
    one iteration, appending a block that follows the latest one, with
    nonce 1 and hash ["[object Object]"]; with a difficulty of 1 or more
    it is still searching after any number of iterations. A call that
    throws leaves the ledger as it was. *)
Theorem mineBlock_outcomes (fuel : nat) (this : BlockchainUtils)
    (txs : list Transaction) (now : Z) :
  (chain this = [] /\ mineBlock fuel this txs now = Some (Throw this TypeError))
  \/ (exists latest,
         getLatestBlock this = Some latest
         /\ ((difficulty this < 0
              /\ mineBlock (S fuel) this txs now = Some (Throw this RangeError))
             \/ (difficulty this = 0
                 /\ mineBlock (S fuel) this txs now
                    = Some (Ok (mkLedger 0 (pendingTransactions this)
                                         (chain this
                                            ++ [mkBlock (index latest + 1) now txs
                                                        (hash latest)
                                                        "[object Object]" 1]))
                               (mkBlock (index latest + 1) now txs (hash latest)
                                        "[object Object]" 1)))
             \/ (1 <= difficulty this /\ mineBlock fuel this txs now = None))).
Proof.
  unfold mineBlock.
  destruct (getLatestBlock this) as [latest|] eqn:Hl.
  - right. exists latest. split; [reflexivity|].
    destruct (Z_lt_le_dec (difficulty this) 0) as [Hneg|Hnn].
    + left. split; [assumption|]. now rewrite proofOfWork_negative.
    + destruct (Z.eq_dec (difficulty this) 0) as [Hz|Hnz].
      * right; left. split; [assumption|].
        rewrite Hz, proofOfWork_zero. reflexivity.
      * right; right. split; [lia|]. rewrite proofOfWork_runs_on by lia. reflexivity.
  - left. split; [now apply getLatestBlock_None|reflexivity].
Qed.

(** ** Submission, mining, lookup *)

Lemma status_in_blocks_sealed (len : Z) (h : JS.Value) (blocks : list Block) (b : Block) :
  In b blocks -> seals h b ->
  exists s, status_in_blocks len h blocks = Some s /\ status s = "confirmed".
Proof.
  induction blocks as [|block rest IH]; intros Hin Hs; [destruct Hin|].
  cbn [status_in_blocks].
  destruct (find (has_hash h) (transactions block)) as [tx|] eqn:Hf.
  - eexists. split; reflexivity.
  - destruct Hin as [<-|Hin].
    + apply seals_find in Hs. congruence.
    + now apply IH.
Qed.

(** X20. Submission, then mining, then lookup. When a transaction object
    returned by [addTransaction] is among those handed to a [mineBlock]
    call that returns, [getTransactionStatus] reports its hash as
    'confirmed'; the object is still in the pool, so
    [getTransactionHistory] gives both a 'created' and a 'mined' event,
    in that order. *)
Theorem submitted_then_mined (this : BlockchainUtils) (transaction : Transaction)
    (now1 now2 : Z) (this1 : BlockchainUtils) (stored : Transaction) (fuel : nat)
    (txs : list Transaction) (now : Z) (this2 : BlockchainUtils) (newBlock : Block) :
  addTransaction this transaction now1 now2 = Ok this1 stored ->
  mineBlock fuel this1 txs now = Some (Ok this2 newBlock) ->
  In stored txs ->
  (exists s, getTransactionStatus this2 (JS.get_prop stored "hash") = Some s
             /\ status s = "confirmed")
  /\ In stored (pendingTransactions this2)
  /\ (exists created mined,
         getTransactionHistory this2 (JS.get_prop stored "hash") = [created; mined]
         /\ (exists t ty who, created = Created t ty who)
         /\ (exists n t bh k ph, mined = Mined n t bh k ph)).
Proof.
  intros Ha Hm Hin.
  destruct (addTransaction_returns _ _ _ _ _ _ Ha) as (_ & -> & Hh & _).
  destruct (mineBlock_returns _ _ _ _ _ _ Hm) as (n & p & _ & _ & _ & Hb & ->).
  assert (Hself : has_hash (JS.get_prop stored "hash") stored = true)
    by (unfold has_hash; rewrite Hh; reflexivity).
  assert (Hseals : seals (JS.get_prop stored "hash") newBlock).
  { exists stored. split; [|exact Hself]. subst newBlock. exact Hin. }
  assert (Hblock : In newBlock (chain this ++ [newBlock]))
    by (apply in_or_app; right; now left).
  assert (Hpool : In stored (pendingTransactions this ++ [stored]))
    by (apply in_or_app; right; now left).
  split; [|split].
  - unfold getTransactionStatus. cbn [chain pendingTransactions].
    destruct (status_in_blocks_sealed
                (Z.of_nat (List.length (chain this ++ [newBlock])))
                _ _ _ Hblock Hseals) as (s & Hs & Hc).
    exists s. now rewrite Hs.
  - exact Hpool.
  - unfold getTransactionHistory. cbn [chain pendingTransactions].
    destruct (find (has_hash (JS.get_prop stored "hash"))
                   (pendingTransactions this ++ [stored])) as [q|] eqn:Hq.
    2:{ rewrite (find_none _ _ Hq stored Hpool) in Hself. discriminate. }
    destruct (mined_events_first (JS.get_prop stored "hash") (chain this ++ [newBlock]))
      as [[_ Hnone]|(i & b & _ & _ & _ & Hev)].
    + now destruct (Hnone newBlock Hblock).
    + rewrite Hev. do 2 eexists. split; [reflexivity|]. split.
      * do 3 eexists. reflexivity.
      * do 5 eexists. reflexivity.
Qed.

Lemma submitted_then_mined_witness :
  exists this1 stored this2 newBlock,
    addTransaction easy_ledger sample_transaction 1500 1500 = Ok this1 stored
    /\ mineBlock 1 this1 [stored] 2000 = Some (Ok this2 newBlock)
    /\ ((exists s, getTransactionStatus this2 (JS.get_prop stored "hash") = Some s
                   /\ status s = "confirmed")
        /\ In stored (pendingTransactions this2)
        /\ (exists created mined,
               getTransactionHistory this2 (JS.get_prop stored "hash") = [created; mined]
               /\ (exists t ty who, created = Created t ty who)
               /\ (exists n t bh k ph, mined = Mined n t bh k ph))).
Proof.
  do 4 eexists. split; [cbv; reflexivity|]. split; [cbv; reflexivity|].
  eapply (submitted_then_mined easy_ledger sample_transaction 1500 1500 _ _ 1%nat _ 2000).
  - reflexivity.
  - reflexivity.
  - now left.
Defined.

(** ** Import as a replacement *)

(** X21. A successful import replaces the ledger rather than merging into
    it: when the snapshot carries a difficulty other than 0, the ledger
    left behind is decided by the snapshot alone, so two ledgers that
    import the same snapshot end up equal; and what the snapshot lacks is
    not kept from the old ledger, except the difficulty. *)
Theorem import_is_replacement (this other : BlockchainUtils) (data : Snapshot)
    (d : Z) (this' : BlockchainUtils) :
  snap_difficulty data = Some d ->
  d <> 0 ->
  importBlockchain this data = Ok this' true ->
  importBlockchain other data = Ok this' true
  /\ chain this' = blocks_of (snap_chain data)
  /\ pendingTransactions this' = imported_pool data
  /\ difficulty this' = d.
Proof.
  unfold importBlockchain, imported_pool. intros Hd Hnz.
  destruct (negb (chain_truthy (snap_chain data)) || negb (Array_isArray (snap_chain data)));
    [discriminate|].
  destruct (negb (chain_checks link_checks (blocks_of (snap_chain data))));
    [discriminate|].
  rewrite Hd. destruct (d =? 0) eqn:Hz; [zlia|].
  intros H. inversion H; subst. auto.
Qed.

Lemma import_is_replacement_witness :
  importBlockchain easy_ledger
    (mkSnapshot (chain_array (chain mined_ledger)) None (Some 2) None None)
  = Ok (mkLedger 2 [] (chain mined_ledger)) true
  /\ chain (mkLedger 2 [] (chain mined_ledger))
     = blocks_of (snap_chain (mkSnapshot (chain_array (chain mined_ledger)) None
                                         (Some 2) None None))
  /\ pendingTransactions (mkLedger 2 [] (chain mined_ledger))
     = imported_pool (mkSnapshot (chain_array (chain mined_ledger)) None (Some 2) None None)
  /\ difficulty (mkLedger 2 [] (chain mined_ledger)) = 2.
Proof.
  apply (import_is_replacement (constructor 1000 1000) easy_ledger
           (mkSnapshot (chain_array (chain mined_ledger)) None (Some 2) None None) 2).
  - reflexivity.
  - discriminate.
  - reflexivity.
Defined.

(** ** What is fed to the hash *)

(** X22. In [index + timestamp + JSON.stringify(transactions) +
    previousHash + nonce] the index and the timestamp are added as numbers
    before anything is concatenated: two blocks whose index and timestamp
    have the same sum, and that agree on the rest, feed the same string to
    the hash. *)
Theorem hash_input_adds_index_and_timestamp (index timestamp index' timestamp' : Z)
    (transactions : list Transaction) (previousHash : string) (nonce : Z) :
  index + timestamp = index' + timestamp' ->
  JS.plus (JS.plus (JS.plus (JS.plus (JS.VNum index) (JS.VNum timestamp))
                            (JS.VStr (stringify_transactions transactions)))
                   (JS.VStr previousHash))
          (JS.VNum nonce)
  = JS.plus (JS.plus (JS.plus (JS.plus (JS.VNum index') (JS.VNum timestamp'))
                              (JS.VStr (stringify_transactions transactions)))
                     (JS.VStr previousHash))
            (JS.VNum nonce)
  /\ calculateHash_data index timestamp transactions previousHash nonce
     = calculateHash_data index' timestamp' transactions previousHash nonce.
Proof.
  intros H. rewrite !calculateHash_data_plus. unfold calculateHash_data.
  now rewrite H.
Qed.

Lemma hash_input_adds_index_and_timestamp_witness :
  JS.plus (JS.plus (JS.plus (JS.plus (JS.VNum 1) (JS.VNum 2000))
                            (JS.VStr (stringify_transactions [])))
                   (JS.VStr "0"))
          (JS.VNum 7)
  = JS.plus (JS.plus (JS.plus (JS.plus (JS.VNum 2) (JS.VNum 1999))
                              (JS.VStr (stringify_transactions [])))
                     (JS.VStr "0"))
            (JS.VNum 7)
  /\ calculateHash_data 1 2000 [] "0" 7 = calculateHash_data 2 1999 [] "0" 7.
Proof.
  apply (hash_input_adds_index_and_timestamp 1 2000 2 1999 [] "0" 7).
  reflexivity.
Defined.

(** ** The listings *)

Lemma In_collected (test : Transaction -> bool) (ann : Block -> Transaction -> Transaction)
    (blocks : list Block) (entry : Transaction) :
  In entry (flat_map (fun block => map (ann block) (filter test (transactions block)))
                     blocks)
  <-> exists block tx,
        In block blocks /\ In tx (transactions block) /\ test tx = true
        /\ entry = ann block tx.
Proof.
  rewrite in_flat_map. split.
  - intros (block & Hb & Hin). apply in_map_iff in Hin.
    destruct Hin as (tx & <- & Htx). apply filter_In in Htx.
    destruct Htx as [Htx Ht]. now exists block, tx.
  - intros (block & tx & Hb & Htx & Ht & ->). exists block. split; [assumption|].
    apply in_map. now apply filter_In.
Qed.

Lemma length_collected (test : Transaction -> bool)
    (ann : Block -> Transaction -> Transaction) (blocks : list Block) :
  List.length (flat_map (fun block => map (ann block) (filter test (transactions block)))
                        blocks)
  = List.length (filter test (flat_map transactions blocks)).
Proof.
  induction blocks as [|block rest IH]; [reflexivity|].
  cbn [flat_map]. rewrite filter_app, !length_app, length_map, IH. reflexivity.
Qed.

Lemma listing_spec (test : Transaction -> bool) (this : BlockchainUtils)
    (result : list Transaction) :
  Permutation result
    (flat_map (fun block =>
                 map (fun tx =>
                        annotate tx (JS.VNum (index block))
                                 (JS.VNum (Z.of_nat (List.length (chain this)) - index block))
                                 (JS.VNum (timestamp block)))
                     (filter test (transactions block)))
              (chain this)
     ++ map (fun tx => annotate tx JS.VNull (JS.VNum 0) JS.VNull)
            (filter test (pendingTransactions this))) ->
  (forall entry, In entry result <-> listed this test entry)
  /\ List.length result = matching this test.
Proof.
  intros Hperm. split.
  - intros entry. unfold listed. split.
    + intros Hin. apply (Permutation_in _ Hperm) in Hin.
      apply in_app_or in Hin. destruct Hin as [Hin|Hin].
      * left. apply In_collected in Hin. exact Hin.
      * right. apply in_map_iff in Hin. destruct Hin as (tx & <- & Htx).
        apply filter_In in Htx. destruct Htx. now exists tx.
    + intros H. apply (Permutation_in _ (Permutation_sym Hperm)).
      apply in_or_app. destruct H as [H|(tx & Hin & Ht & ->)].
      * left. apply (In_collected test
                       (fun block tx =>
                          annotate tx (JS.VNum (index block))
                                   (JS.VNum (Z.of_nat (List.length (chain this))
                                             - index block))
                                   (JS.VNum (timestamp block)))).
        exact H.
      * right. apply (in_map (fun tx => annotate tx JS.VNull (JS.VNum 0) JS.VNull)).
        now apply filter_In.
  - rewrite (Permutation_length Hperm). unfold matching.
    rewrite length_app, length_map.
    now rewrite (length_collected test
                   (fun block tx =>
                      annotate tx (JS.VNum (index block))
                               (JS.VNum (Z.of_nat (List.length (chain this)) - index block))
                               (JS.VNum (timestamp block)))).
Qed.





(** X25. A transaction that was submitted with a string as signer and then
    sealed by [mineBlock] is listed twice for that signer by
    [getUserTransactions]: once as mined, with the index and timestamp of
    the new block, and once as pending, with a null block number. *)
Theorem mined_transaction_listed_twice
    (sort_newest_first : list Transaction -> list Transaction)
    (this : BlockchainUtils) (transaction : Transaction) (user : string) (now1 now2 : Z)
    (this1 : BlockchainUtils) (stored : Transaction) (fuel : nat)
    (txs : list Transaction) (now : Z) (this2 : BlockchainUtils) (newBlock : Block) :
  (forall l, Permutation (sort_newest_first l) l) ->
  JS.get_prop transaction "signedBy" = JS.VStr user ->
  addTransaction this transaction now1 now2 = Ok this1 stored ->
  mineBlock fuel this1 txs now = Some (Ok this2 newBlock) ->
  In stored txs ->
  In (annotate stored (JS.VNum (index newBlock))
               (JS.VNum (Z.of_nat (List.length (chain this2)) - index newBlock))
               (JS.VNum now))
     (getUserTransactions sort_newest_first this2 (JS.VStr user))
  /\ In (annotate stored JS.VNull (JS.VNum 0) JS.VNull)
        (getUserTransactions sort_newest_first this2 (JS.VStr user)).
Proof.
  intros Hsort Hu Ha Hm Hin.
  destruct (addTransaction_returns _ _ _ _ _ _ Ha) as (_ & -> & _ & _ & _ & _ & Hs & _).
  destruct (mineBlock_returns _ _ _ _ _ _ Hm) as (n & p & _ & _ & _ & Hb & ->).
  assert (Htest : signed_by (JS.VStr user) stored = true).
  { unfold signed_by. rewrite Hs, Hu. cbn. apply String.eqb_refl. }
  assert (Hspec := listing_spec (signed_by (JS.VStr user))
                     (mkLedger (difficulty this) (pendingTransactions this ++ [stored])
                               (chain this ++ [newBlock]))
                     _ (Hsort _)).
  destruct Hspec as [Hspec _].
  split; apply Hspec; unfold listed; cbn [chain pendingTransactions].
  - left. exists newBlock, stored. repeat split.
    + apply in_or_app. right. now left.
    + subst newBlock. exact Hin.
    + exact Htest.
    + subst newBlock. reflexivity.
  - right. exists stored. repeat split.
    + apply in_or_app. right. now left.
    + exact Htest.
Qed.

Lemma mined_transaction_listed_twice_witness :
  exists this1 stored this2 newBlock,
    addTransaction easy_ledger sample_transaction 1500 1500 = Ok this1 stored
    /\ mineBlock 1 this1 [stored] 2000 = Some (Ok this2 newBlock)
    /\ (In (annotate stored (JS.VNum (index newBlock))
                     (JS.VNum (Z.of_nat (List.length (chain this2)) - index newBlock))
                     (JS.VNum 2000))
           (getUserTransactions (fun l => l) this2 (JS.VStr "user1"))
        /\ In (annotate stored JS.VNull (JS.VNum 0) JS.VNull)
              (getUserTransactions (fun l => l) this2 (JS.VStr "user1"))).
Proof.
  do 4 eexists. split; [cbv; reflexivity|]. split; [cbv; reflexivity|].
  eapply (mined_transaction_listed_twice (fun l => l) easy_ledger sample_transaction
            "user1" 1500 1500 _ _ 1%nat _ 2000).
  - intros l. apply Permutation_refl.
  - reflexivity.
  - reflexivity.
  - reflexivity.
  - now left.
Defined.
